(** * CloudNav: bookmark export codec, backup transport and state handlers

    A shallow embedding of
      - [src/types.ts]                      (record model),
      - [src/services/exportService.ts]     (Netscape bookmark export),
      - the WebDAV backup transport         ([checkWebDavConnection],
        [uploadBackup], [downloadBackup]),
      - the [App] handlers that change the record set, the filters
        behind the lists shown, and [CategoryAuthModal],
      - [src/components/CategoryManagerModal.tsx].

    [parseBookmarks] ([src/services/bookmarkParser.ts]) is not among the
    sources.  The handlers that call it take it as a parameter, and the
    round trip of the export is stated on the generator alone: which
    inputs a generated document determines.

    Conventions.  A JavaScript string is modelled as a [string]: the
    sequence of bytes of its UTF-8 encoding.  The five characters the
    codec treats specially are ASCII, so replacing them byte-wise is the
    same as replacing them code-unit-wise.  A JavaScript number that
    holds a timestamp is modelled as an integer of [Z]; [Math.floor (x /
    1000)] is then [x / 1000] on [Z], and the conversion of an integer to
    text is its decimal notation. *)

From Stdlib Require Import ZArith Ascii DecimalString.
From stdpp Require Import gmap strings list fin_maps.

Local Open Scope Z_scope.

(** ** Characters and string helpers *)

Definition dquote : ascii := "034"%char.
Definition squote : ascii := "039"%char.
Definition newline : ascii := "010"%char.

Definition q : string := String dquote "".
Definition nl : string := String newline "".

(** [String(n)] for an integral number. *)
Definition numberToString (n : Z) : string :=
  NilZero.string_of_int (Z.to_int n).

(** [s.replace(/c/g, r)] for a pattern that is one literal character. *)
Fixpoint replaceAll (c : ascii) (r : string) (s : string) : string :=
  match s with
  | EmptyString => EmptyString
  | String a s' =>
      if decide (a = c) then r +:+ replaceAll c r s'
      else String a (replaceAll c r s')
  end.

(** ** Record model ([src/types.ts]) *)

Module LinkItem.
Record t := mk {
  id : string;
  title : string;
  url : string;
  icon : option string;
  description : option string;
  categoryId : string;
  createdAt : Z;
  pinned : option bool
}.
End LinkItem.

Module Category.
Record t := mk {
  id : string;
  name : string;
  icon : string;
  password : option string
}.
End Category.

Definition DEFAULT_CATEGORIES : list Category.t :=
  [ Category.mk "common" "常用推荐" "Star" None;
    Category.mk "dev" "开发工具" "Code" None;
    Category.mk "design" "设计资源" "Palette" None;
    Category.mk "read" "阅读资讯" "BookOpen" None;
    Category.mk "ent" "休闲娱乐" "Gamepad2" None;
    Category.mk "ai" "人工智能" "Bot" None ].

(** ** Export codec ([src/services/exportService.ts]) *)

Definition bookmarkHeader : string :=
  "<!DOCTYPE NETSCAPE-Bookmark-file-1>" +:+ nl +:+
  "<!-- This is an automatically generated file." +:+ nl +:+
  "     It will be read and overwritten." +:+ nl +:+
  "     DO NOT EDIT! -->" +:+ nl +:+
  "<META HTTP-EQUIV=" +:+ q +:+ "Content-Type" +:+ q +:+
  " CONTENT=" +:+ q +:+ "text/html; charset=UTF-8" +:+ q +:+ ">" +:+ nl +:+
  "<TITLE>Bookmarks</TITLE>" +:+ nl +:+
  "<H1>Bookmarks</H1>" +:+ nl +:+
  "<DL><p>" +:+ nl.

Definition escapeHtml (unsafe : string) : string :=
  replaceAll squote "&#039;"
    (replaceAll dquote "&quot;"
      (replaceAll ">" "&gt;"
        (replaceAll "<" "&lt;"
          (replaceAll "&" "&amp;" unsafe)))).

(** The label of the trailing folder, U+672A U+5206 U+7C7B. *)
Definition uncategorizedLabel : string := "未分类".

(** [linksByCat]: the [Map] filled by the first [forEach]. *)
Definition groupLink (m : gmap string (list LinkItem.t)) (link : LinkItem.t)
  : gmap string (list LinkItem.t) :=
  let list := default [] (m !! LinkItem.categoryId link) in
  <[LinkItem.categoryId link := list ++ [link]]> m.

Definition linksByCat (links : list LinkItem.t) : gmap string (list LinkItem.t) :=
  fold_left groupLink links ∅.

(** The [<H3>] line that opens a folder and the two fixed lines around
    its anchors. *)
Definition folderTitleLine (now : Z) (escapedName : string) : string :=
  "    <DT><H3 ADD_DATE=" +:+ q +:+ numberToString now +:+ q +:+
  " LAST_MODIFIED=" +:+ q +:+ numberToString now +:+ q +:+ ">" +:+
  escapedName +:+ "</H3>" +:+ nl.

Definition folderOpenLine : string := "    <DL><p>" +:+ nl.
Definition folderCloseLine : string := "    </DL><p>" +:+ nl.

(** [link.icon ? ` ICON="${link.icon}"` : ''] *)
Definition iconAttr (link : LinkItem.t) : string :=
  match LinkItem.icon link with
  | Some i => if decide (i = "") then "" else " ICON=" +:+ q +:+ i +:+ q
  | None => ""
  end.

(** The anchor line written by the loop over a category's links. *)
Definition categoryAnchor (link : LinkItem.t) : string :=
  let date := LinkItem.createdAt link / 1000 in
  "        <DT><A HREF=" +:+ q +:+ LinkItem.url link +:+ q +:+
  " ADD_DATE=" +:+ q +:+ numberToString date +:+ q +:+ iconAttr link +:+
  ">" +:+ escapeHtml (LinkItem.title link) +:+ "</A>" +:+ nl.

(** The anchor line written by the loop over the uncategorized links. *)
Definition uncategorizedAnchor (link : LinkItem.t) : string :=
  let date := LinkItem.createdAt link / 1000 in
  "        <DT><A HREF=" +:+ q +:+ LinkItem.url link +:+ q +:+
  " ADD_DATE=" +:+ q +:+ numberToString date +:+ q +:+
  ">" +:+ escapeHtml (LinkItem.title link) +:+ "</A>" +:+ nl.

Definition validCatIds (categories : list Category.t) : gset string :=
  list_to_set (map Category.id categories).

Definition uncategorized (links : list LinkItem.t) (categories : list Category.t)
  : list LinkItem.t :=
  filter (λ l, LinkItem.categoryId l ∉ validCatIds categories) links.

(** [generateBookmarkHtml]; [dateNow] is the reading of [Date.now()]. *)
Definition generateBookmarkHtml (dateNow : Z)
    (links : list LinkItem.t) (categories : list Category.t) : string :=
  let now := dateNow / 1000 in
  let html := bookmarkHeader in
  let byCat := linksByCat links in
  let html :=
    fold_left (fun html cat =>
      let catLinks := default [] (byCat !! Category.id cat) in
      let html := html +:+ folderTitleLine now (escapeHtml (Category.name cat)) in
      let html := html +:+ folderOpenLine in
      let html := fold_left (fun html link => html +:+ categoryAnchor link)
                            catLinks html in
      html +:+ folderCloseLine) categories html in
  let uncat := uncategorized links categories in
  let html :=
    if decide (0 < length uncat)%nat then
      let html := html +:+ folderTitleLine now uncategorizedLabel in
      let html := html +:+ folderOpenLine in
      let html := fold_left (fun html link => html +:+ uncategorizedAnchor link)
                            uncat html in
      html +:+ folderCloseLine
    else html in
  html +:+ "</DL><p>".

(** ** The layout of the generated document

    The same document, written as the concatenation of its folders: the
    links of a category are the links that carry its identifier, in
    input order. *)

Fixpoint concatMap {A : Type} (f : A → string) (xs : list A) : string :=
  match xs with
  | [] => ""
  | x :: xs' => f x +:+ concatMap f xs'
  end.

Definition linksOf (links : list LinkItem.t) (catId : string) : list LinkItem.t :=
  filter (λ l, LinkItem.categoryId l = catId) links.

Definition categoryFolder (now : Z) (links : list LinkItem.t) (cat : Category.t)
  : string :=
  folderTitleLine now (escapeHtml (Category.name cat)) +:+ folderOpenLine +:+
  concatMap categoryAnchor (linksOf links (Category.id cat)) +:+ folderCloseLine.

Definition uncategorizedFolder (now : Z) (uncat : list LinkItem.t) : string :=
  match uncat with
  | [] => ""
  | _ :: _ =>
      folderTitleLine now uncategorizedLabel +:+ folderOpenLine +:+
      concatMap uncategorizedAnchor uncat +:+ folderCloseLine
  end.

Definition bookmarkLayout (dateNow : Z)
    (links : list LinkItem.t) (categories : list Category.t) : string :=
  bookmarkHeader +:+
  concatMap (categoryFolder (dateNow / 1000) links) categories +:+
  uncategorizedFolder (dateNow / 1000) (uncategorized links categories) +:+
  "</DL><p>".

(** ** Escaping, character by character

    What the specification says of [escapeHtml]: each of the five
    characters is replaced by its entity and every other character is
    kept.  [escapeEach] does that in one pass; the source does it in five
    successive passes. *)

Definition escapeChar (c : ascii) : string :=
  if decide (c = "&"%char) then "&amp;"
  else if decide (c = "<"%char) then "&lt;"
  else if decide (c = ">"%char) then "&gt;"
  else if decide (c = dquote) then "&quot;"
  else if decide (c = squote) then "&#039;"
  else String c "".

Fixpoint escapeEach (s : string) : string :=
  match s with
  | EmptyString => EmptyString
  | String c s' => escapeChar c +:+ escapeEach s'
  end.

(** An anchor line with the given pieces put in as they are. *)
Definition anchorLine (href : string) (date : Z) (attrs : string) (text : string)
  : string :=
  "        <DT><A HREF=" +:+ q +:+ href +:+ q +:+
  " ADD_DATE=" +:+ q +:+ numberToString date +:+ q +:+ attrs +:+
  ">" +:+ text +:+ "</A>" +:+ nl.

(** ** The text of a bookmark file

    The text that the properties of the export speak of, written out on
    its own.  No definition of this part uses one of the generator: a
    property stated with them compares what [generateBookmarkHtml]
    writes with the text it is meant to write.  Names and titles are
    passed in the form in which they are to be shown. *)

Definition doubleQuote : string := String "034"%char "".
Definition lineEnd : string := String "010"%char "".

(** [ NAME="value"], the value put in as it is. *)
Definition attributeText (name value : string) : string :=
  " " +:+ name +:+ "=" +:+ doubleQuote +:+ value +:+ doubleQuote.

(** The lines every bookmark file starts with. *)
Definition fileHeading : string :=
  "<!DOCTYPE NETSCAPE-Bookmark-file-1>" +:+ lineEnd +:+
  "<!-- This is an automatically generated file." +:+ lineEnd +:+
  "     It will be read and overwritten." +:+ lineEnd +:+
  "     DO NOT EDIT! -->" +:+ lineEnd +:+
  "<META" +:+ attributeText "HTTP-EQUIV" "Content-Type" +:+
  attributeText "CONTENT" "text/html; charset=UTF-8" +:+ ">" +:+ lineEnd +:+
  "<TITLE>Bookmarks</TITLE>" +:+ lineEnd +:+
  "<H1>Bookmarks</H1>" +:+ lineEnd +:+
  "<DL><p>" +:+ lineEnd.

(** The [<H3>] line that heads a folder. *)
Definition headingText (seconds : Z) (shownName : string) : string :=
  "    <DT><H3" +:+ attributeText "ADD_DATE" (numberToString seconds) +:+
  attributeText "LAST_MODIFIED" (numberToString seconds) +:+
  ">" +:+ shownName +:+ "</H3>" +:+ lineEnd.

(** The two lines around the anchors of a folder. *)
Definition listOpens : string := "    <DL><p>" +:+ lineEnd.
Definition listCloses : string := "    </DL><p>" +:+ lineEnd.

(** The [<A>] line of a link, with an [ICON] attribute when an icon
    reference is given. *)
Definition anchorText (href : string) (seconds : Z) (icon : option string)
    (shownTitle : string) : string :=
  "        <DT><A" +:+ attributeText "HREF" href +:+
  attributeText "ADD_DATE" (numberToString seconds) +:+
  match icon with
  | Some reference => attributeText "ICON" reference
  | None => ""
  end +:+
  ">" +:+ shownTitle +:+ "</A>" +:+ lineEnd.

(** The icon reference of a link that has one; an empty text counts as
    none. *)
Definition presentIcon (l : LinkItem.t) : option string :=
  match LinkItem.icon l with
  | Some reference => if decide (reference = "") then None else Some reference
  | None => None
  end.

(** The category identifier of the link is the identifier of none of
    the categories. *)
Definition dangling (categories : list Category.t) (l : LinkItem.t) : Prop :=
  LinkItem.categoryId l ∉ map Category.id categories.

#[global] Instance dangling_dec (categories : list Category.t) (l : LinkItem.t)
  : Decision (dangling categories l).
Proof. unfold dangling. apply _. Defined.

(** The anchor of a link in the folder of its category, and in the
    trailing folder, where the code writes no [ICON] attribute. *)
Definition categoryAnchorText (l : LinkItem.t) : string :=
  anchorText (LinkItem.url l) (LinkItem.createdAt l / 1000) (presentIcon l)
    (escapeEach (LinkItem.title l)).

Definition trailingAnchorText (l : LinkItem.t) : string :=
  anchorText (LinkItem.url l) (LinkItem.createdAt l / 1000) None
    (escapeEach (LinkItem.title l)).

(** The folder of a category: its heading and, between the two list
    lines, the anchors of the links that carry its identifier. *)
Definition categoryFolderText (seconds : Z) (links : list LinkItem.t)
    (cat : Category.t) : string :=
  headingText seconds (escapeEach (Category.name cat)) +:+ listOpens +:+
  concatMap categoryAnchorText
    (filter (λ l, LinkItem.categoryId l = Category.id cat) links) +:+
  listCloses.

(** The trailing folder for the links [rest]: nothing when there are
    none. *)
Definition trailingFolderText (seconds : Z) (rest : list LinkItem.t) : string :=
  match rest with
  | [] => ""
  | _ :: _ =>
      headingText seconds "未分类" +:+ listOpens +:+
      concatMap trailingAnchorText rest +:+ listCloses
  end.

(** ** Which folder a link goes to *)

#[global] Instance LinkItem_eq_dec : EqDecision LinkItem.t.
Proof. solve_decision. Defined.

#[global] Instance Category_eq_dec : EqDecision Category.t.
Proof. solve_decision. Defined.

(** How many times [l] is listed in [ls]. *)
Definition occurrences (l : LinkItem.t) (ls : list LinkItem.t) : nat :=
  length (filter (λ x, x = l) ls).

(** ** The browser around the code

    JavaScript values decoded from JSON, HTTP requests and responses,
    and the pieces of mutable state the code touches: the requests sent,
    the console, [localStorage], and the [useState] cells of [App]. *)

#[local] Set Warnings "-register-all".

Inductive json :=
  | JNull
  | JBool (b : bool)
  | JNumber (mantissa exponent : Z)
  | JString (s : string)
  | JArray (items : list json)
  | JObject (fields : gmap string json).

Inductive JsError :=
  | TypeError
  | SyntaxError
  | InvalidCharacterError
  | NetworkError
  | Error (message : string).

Record Request := mkRequest {
  req_url : string;
  req_method : string;
  req_headers : list (string * string);
  req_body : option string
}.

(** What [response.json()] settles to. *)
Inductive BodyOutcome :=
  | BodyNotJson
  | BodyJson (data : json).

Record Response := mkResponse {
  status : Z;
  body : BodyOutcome
}.

(** What [fetch] settles to. *)
Inductive FetchOutcome :=
  | FetchRejected
  | FetchResolved (response : Response).

Inductive SyncStatus := Idle | Saving | Saved | SyncError.

Record World := mkWorld {
  sent : list Request;
  console : list string;
  alerts : list string;
  timers : list (Z * SyncStatus);
  localStorage : gmap string string;
  links : list LinkItem.t;
  categories : list Category.t;
  authToken : string;
  isAuthOpen : bool;
  syncStatus : SyncStatus;
  fileInputValue : string
}.

(** A computation either returns or throws, and changes the world. *)
Inductive Outcome (A : Type) :=
  | Returned (a : A)
  | Thrown (e : JsError).
Arguments Returned {A} a.
Arguments Thrown {A} e.

Definition Js (A : Type) : Type := World → Outcome A * World.

#[global] Instance Js_ret : MRet Js := fun A a w => (Returned a, w).

#[global] Instance Js_bind : MBind Js := fun A B f c w =>
  match c w with
  | (Returned a, w') => f a w'
  | (Thrown e, w') => (Thrown e, w')
  end.

Definition throw {A : Type} (e : JsError) : Js A := fun w => (Thrown e, w).

(** [try { body } catch (error) { handler }] *)
Definition tryCatch {A : Type} (body : Js A) (handler : JsError → Js A) : Js A :=
  fun w =>
    match body w with
    | (Returned a, w') => (Returned a, w')
    | (Thrown e, w') => handler e w'
    end.

Definition modify (f : World → World) : Js unit := fun w => (Returned (), f w).

(** The state a handler closed over when it was created. *)
Definition getWorld : Js World := fun w => (Returned w, w).

(** A call whose result is already known to return or throw. *)
Definition settle {A : Type} (o : Outcome A) : Js A := fun w => (o, w).

Definition console_error (message : string) : Js unit :=
  modify (fun w => mkWorld (sent w) (console w ++ [message]) (alerts w) (timers w)
    (localStorage w) (links w) (categories w) (authToken w) (isAuthOpen w)
    (syncStatus w) (fileInputValue w)).

Definition alert (message : string) : Js unit :=
  modify (fun w => mkWorld (sent w) (console w) (alerts w ++ [message]) (timers w)
    (localStorage w) (links w) (categories w) (authToken w) (isAuthOpen w)
    (syncStatus w) (fileInputValue w)).

Definition setTimeout (action : SyncStatus) (delay : Z) : Js unit :=
  modify (fun w => mkWorld (sent w) (console w) (alerts w)
    (timers w ++ [(delay, action)])
    (localStorage w) (links w) (categories w) (authToken w) (isAuthOpen w)
    (syncStatus w) (fileInputValue w)).

Definition withLocalStorage (f : gmap string string → gmap string string) : Js unit :=
  modify (fun w => mkWorld (sent w) (console w) (alerts w) (timers w)
    (f (localStorage w)) (links w) (categories w) (authToken w) (isAuthOpen w)
    (syncStatus w) (fileInputValue w)).

Definition localStorage_setItem (key value : string) : Js unit :=
  withLocalStorage (insert key value).

Definition localStorage_removeItem (key : string) : Js unit :=
  withLocalStorage (delete key).

Definition setLinks (v : list LinkItem.t) : Js unit :=
  modify (fun w => mkWorld (sent w) (console w) (alerts w) (timers w)
    (localStorage w) v (categories w) (authToken w) (isAuthOpen w)
    (syncStatus w) (fileInputValue w)).

Definition setCategories (v : list Category.t) : Js unit :=
  modify (fun w => mkWorld (sent w) (console w) (alerts w) (timers w)
    (localStorage w) (links w) v (authToken w) (isAuthOpen w)
    (syncStatus w) (fileInputValue w)).

Definition setAuthToken (v : string) : Js unit :=
  modify (fun w => mkWorld (sent w) (console w) (alerts w) (timers w)
    (localStorage w) (links w) (categories w) v (isAuthOpen w)
    (syncStatus w) (fileInputValue w)).

Definition setIsAuthOpen (v : bool) : Js unit :=
  modify (fun w => mkWorld (sent w) (console w) (alerts w) (timers w)
    (localStorage w) (links w) (categories w) (authToken w) v
    (syncStatus w) (fileInputValue w)).

Definition setSyncStatus (v : SyncStatus) : Js unit :=
  modify (fun w => mkWorld (sent w) (console w) (alerts w) (timers w)
    (localStorage w) (links w) (categories w) (authToken w) (isAuthOpen w)
    v (fileInputValue w)).

Definition clearFileInput : Js unit :=
  modify (fun w => mkWorld (sent w) (console w) (alerts w) (timers w)
    (localStorage w) (links w) (categories w) (authToken w) (isAuthOpen w)
    (syncStatus w) "").

(** [response.ok] *)
Definition ok (r : Response) : bool :=
  bool_decide (200 ≤ status r ≤ 299).

(** [s.endsWith(t)] *)
Fixpoint endsWith (s t : string) : bool :=
  if decide (s = t) then true
  else match s with
       | EmptyString => false
       | String _ s' => endsWith s' t
       end.

(** [Array.isArray(v)], where [None] is [undefined]. *)
Definition isArray (v : option json) : bool :=
  match v with
  | Some (JArray _) => true
  | _ => false
  end.

(** [data.key] on a decoded JSON value: reading a property of [null]
    throws, of an object gives the field or [undefined], and of any
    other value gives [undefined] for the two keys the code reads. *)
Definition getProperty (data : json) (key : string) : Js (option json) :=
  match data with
  | JNull => throw TypeError
  | JObject fields => mret (fields !! key)
  | _ => mret None
  end.

Record WebDavConfig := mkWebDavConfig {
  cfg_url : string;
  cfg_username : string;
  cfg_password : string;
  cfg_enabled : bool
}.

Definition LOCAL_STORAGE_KEY : string := "cloudnav_data_cache".
Definition AUTH_KEY : string := "cloudnav_auth_token".
Definition WEBDAV_CONFIG_KEY : string := "cloudnav_webdav_config".

(** What [parseBookmarks] hands to [handleImport]. *)
Record ImportResult := mkImportResult {
  imported_links : list LinkItem.t;
  imported_categories : list Category.t
}.

Section Program.

(** The platform functions the code calls.  [network] answers a
    request given the requests sent before it; [btoa] is [None] where
    the browser's [btoa] throws; [JSON_stringify] is given the
    indentation argument and the two lists of the object it prints;
    [parseBookmarks] is [src/services/bookmarkParser.ts] as
    [handleImport] sees it. *)
Variable network : list Request → Request → FetchOutcome.
Variable btoa : string → option string.
Variable JSON_stringify : option Z → list LinkItem.t → list Category.t → string.
Variable parseBookmarks : string → Outcome ImportResult.

Definition fetch (request : Request) : Js Response :=
  fun w =>
    let w' := mkWorld (sent w ++ [request]) (console w) (alerts w) (timers w)
                (localStorage w) (links w) (categories w) (authToken w)
                (isAuthOpen w) (syncStatus w) (fileInputValue w) in
    match network (sent w) request with
    | FetchRejected => (Thrown NetworkError, w')
    | FetchResolved response => (Returned response, w')
    end.

(** [await response.json()] *)
Definition response_json (response : Response) : Js json :=
  match body response with
  | BodyNotJson => throw SyntaxError
  | BodyJson data => mret data
  end.

(** *** The WebDAV transport *)

Definition encodeAuth (user pass : string) : Js string :=
  match btoa (user +:+ ":" +:+ pass) with
  | Some encoded => mret encoded
  | None => throw InvalidCharacterError
  end.

Definition checkWebDavConnection_try (config : WebDavConfig) : Js bool :=
  auth ← encodeAuth (cfg_username config) (cfg_password config);
  response ← fetch (mkRequest (cfg_url config) "PROPFIND"
                      [("Authorization", "Basic " +:+ auth); ("Depth", "0")]
                      None);
  mret (bool_decide (status response = 207) || bool_decide (status response = 200)).

Definition checkWebDavConnection_catch (error : JsError) : Js bool :=
  console_error "WebDAV Connection Check Failed:";;
  mret false.

Definition checkWebDavConnection (config : WebDavConfig) : Js bool :=
  tryCatch (checkWebDavConnection_try config) checkWebDavConnection_catch.

Definition backupUrl (config : WebDavConfig) : string :=
  let filename := "cloudnav_backup.json" in
  if endsWith (cfg_url config) "/" then cfg_url config +:+ filename
  else cfg_url config +:+ "/" +:+ filename.

Definition uploadBackup_try (config : WebDavConfig)
    (data_links : list LinkItem.t) (data_categories : list Category.t) : Js bool :=
  let jsonString := JSON_stringify (Some 2) data_links data_categories in
  let targetUrl := backupUrl config in
  auth ← encodeAuth (cfg_username config) (cfg_password config);
  response ← fetch (mkRequest targetUrl "PUT"
                      [("Authorization", "Basic " +:+ auth);
                       ("Content-Type", "application/json")]
                      (Some jsonString));
  mret (ok response || bool_decide (status response = 201)
                    || bool_decide (status response = 204)).

Definition uploadBackup_catch (error : JsError) : Js bool :=
  console_error "WebDAV Upload Failed:";;
  mret false.

Definition uploadBackup (config : WebDavConfig)
    (data_links : list LinkItem.t) (data_categories : list Category.t) : Js bool :=
  tryCatch (uploadBackup_try config data_links data_categories) uploadBackup_catch.

(** The result is the decoded value itself, or [None] for [null]. *)
Definition downloadBackup_try (config : WebDavConfig) : Js (option json) :=
  let targetUrl := backupUrl config in
  auth ← encodeAuth (cfg_username config) (cfg_password config);
  response ← fetch (mkRequest targetUrl "GET"
                      [("Authorization", "Basic " +:+ auth)] None);
  if negb (ok response) then mret None
  else
    data ← response_json response;
    data_links ← getProperty data "links";
    data_categories ← getProperty data "categories";
    if isArray data_links && isArray data_categories then mret (Some data)
    else mret None.

Definition downloadBackup_catch (error : JsError) : Js (option json) :=
  console_error "WebDAV Download Failed:";;
  mret None.

Definition downloadBackup (config : WebDavConfig) : Js (option json) :=
  tryCatch (downloadBackup_try config) downloadBackup_catch.

(** *** [App]: synchronisation and the handlers *)

Definition syncToCloud (newLinks : list LinkItem.t)
    (newCategories : list Category.t) (token : string) : Js bool :=
  setSyncStatus Saving;;
  tryCatch
    (response ← fetch (mkRequest "/api/storage" "POST"
                         [("Content-Type", "application/json");
                          ("x-auth-password", token)]
                         (Some (JSON_stringify None newLinks newCategories)));
     if bool_decide (status response = 401) then
       setAuthToken "";;
       localStorage_removeItem AUTH_KEY;;
       setIsAuthOpen true;;
       setSyncStatus SyncError;;
       mret false
     else if negb (ok response) then throw (Error "Network response was not ok")
     else
       setSyncStatus Saved;;
       setTimeout Idle 2000;;
       mret true)
    (fun error =>
       console_error "Sync failed";;
       setSyncStatus SyncError;;
       mret false).

(** [authToken] is the value the calling handler closed over.  The
    source does not await [syncToCloud]; the model runs the call to its
    end before going on, and drops its result. *)
Definition updateData (authToken : string)
    (newLinks : list LinkItem.t) (newCategories : list Category.t) : Js unit :=
  setLinks newLinks;;
  setCategories newCategories;;
  localStorage_setItem LOCAL_STORAGE_KEY (JSON_stringify None newLinks newCategories);;
  if decide (authToken = "") then mret ()
  else (syncToCloud newLinks newCategories authToken;; mret ()).

(** The loop of [handleImport] over the parsed categories:
    [mergedCategories] grows by the parsed category when [find] sees no
    category of that name in it. *)
Definition mergeCategory (mergedCategories : list Category.t) (nc : Category.t)
  : list Category.t :=
  match List.find (fun c => bool_decide (Category.name c = Category.name nc))
                  mergedCategories with
  | Some _ => mergedCategories
  | None => mergedCategories ++ [nc]
  end.

Definition handleImport (file : option string) : Js unit :=
  w ← getWorld;
  match file with
  | None => mret ()
  | Some file =>
      if decide (authToken w = "") then
        setIsAuthOpen true;;
        clearFileInput
      else
        tryCatch
          (parsed ← settle (parseBookmarks file);
           let newLinks := imported_links parsed in
           let newCats := imported_categories parsed in
           let mergedCategories := fold_left mergeCategory newCats (categories w) in
           let mergedLinks := links w ++ newLinks in
           updateData (authToken w) mergedLinks mergedCategories;;
           alert ("成功导入 " +:+ numberToString (Z.of_nat (length newLinks)) +:+
                  " 个书签!"))
          (fun err => alert "导入失败，请确保是Chrome导出的HTML文件。");;
        clearFileInput
  end.

Definition handleDeleteCategory (catId : string) : Js unit :=
  w ← getWorld;
  if decide (authToken w = "") then setIsAuthOpen true
  else
    let newCats := filter (λ c, Category.id c ≠ catId) (categories w) in
    let targetId := "common" in
    let newLinks :=
      map (fun l =>
             if decide (LinkItem.categoryId l = catId) then
               LinkItem.mk (LinkItem.id l) (LinkItem.title l) (LinkItem.url l)
                 (LinkItem.icon l) (LinkItem.description l) targetId
                 (LinkItem.createdAt l) (LinkItem.pinned l)
             else l) (links w) in
    let newCats :=
      if decide (length newCats = 0%nat) then newCats ++ take 1 DEFAULT_CATEGORIES
      else newCats in
    updateData (authToken w) newLinks newCats.


Definition storageRequest (newLinks : list LinkItem.t)
    (newCategories : list Category.t) (token : string) : Request :=
  mkRequest "/api/storage" "POST"
    [("Content-Type", "application/json"); ("x-auth-password", token)]
    (Some (JSON_stringify None newLinks newCategories)).

End Program.

(** A JSON value that [downloadBackup] is meant to accept: an object
    whose fields [links] and [categories] are both arrays. *)
Definition fieldsAreArrays (data : json) : bool :=
  match data with
  | JObject fields => isArray (fields !! "links") && isArray (fields !! "categories")
  | _ => false
  end.

(** What category deletion does to one link, in the words of the
    specification: a link of the deleted category moves to ['common'],
    any other link is left as it is. *)
Definition moveToCommon (catId : string) (l : LinkItem.t) : LinkItem.t :=
  if decide (LinkItem.categoryId l = catId) then
    LinkItem.mk (LinkItem.id l) (LinkItem.title l) (LinkItem.url l)
      (LinkItem.icon l) (LinkItem.description l) "common"
      (LinkItem.createdAt l) (LinkItem.pinned l)
  else l.

(** ** Reading an exported file back

    A reader for the documents that [generateBookmarkHtml] writes.  It
    is not [parseBookmarks] (whose source is not in the repository): it
    serves to show what a generated document determines.
      - The text is cut into tags ([<] up to the next [>] that is not
        inside a double-quoted attribute value) and the text between
        them;
      - an [<H3 ...>] tag opens a folder, named by the text that follows
        the tag;
      - an [<A ...>] tag with an [HREF] attribute is a link of the folder
        opened last: its URL is what stands between the quotes of the
        attribute, and its title is the text that follows the tag;
      - in names and titles the five entities [&amp;] [&lt;] [&gt;]
        [&quot;] [&#039;] are decoded;
      - every other tag, and text elsewhere, is skipped.
    The result is the list of folders in file order, each with the
    title and URL of its links. *)

Inductive Token :=
  | Text (content : string)
  | Tag (content : string).

Inductive LexMode := InText | InTag | InQuotes.

(** Put one more character in front of the token being read. *)
Definition pushChar (c : ascii) (tokens : list Token) : list Token :=
  match tokens with
  | Text t :: rest => Text (String c t) :: rest
  | Tag t :: rest => Tag (String c t) :: rest
  | [] => []
  end.

(** Cutting the file into tags and text. *)
Fixpoint lex (mode : LexMode) (s : string) : list Token :=
  match s with
  | EmptyString =>
      match mode with
      | InText => [Text ""]
      | _ => [Tag ""]
      end
  | String c s' =>
      match mode with
      | InText =>
          if Ascii.eqb c "<" then Text "" :: lex InTag s'
          else pushChar c (lex InText s')
      | InTag =>
          if Ascii.eqb c ">" then Tag "" :: lex InText s'
          else if Ascii.eqb c dquote then pushChar c (lex InQuotes s')
          else pushChar c (lex InTag s')
      | InQuotes =>
          if Ascii.eqb c dquote then pushChar c (lex InTag s')
          else pushChar c (lex InQuotes s')
      end
  end.

(** [s.startsWith(p)] *)
Fixpoint startsWith (s p : string) {struct p} : bool :=
  match p with
  | EmptyString => true
  | String b p' =>
      match s with
      | EmptyString => false
      | String a s' => Ascii.eqb a b && startsWith s' p'
      end
  end.

(** The entity at the start of [s]: the character it stands for and the
    number of characters that follow its [&]. *)
Definition entityAt (s : string) : option (ascii * nat) :=
  if startsWith s "&amp;" then Some ("&"%char, 4%nat)
  else if startsWith s "&lt;" then Some ("<"%char, 3%nat)
  else if startsWith s "&gt;" then Some (">"%char, 3%nat)
  else if startsWith s "&quot;" then Some (dquote, 5%nat)
  else if startsWith s "&#039;" then Some (squote, 5%nat)
  else None.

(** The decoding of entities in names and titles.  It goes left to
    right; [skip] counts the characters of an entity still to pass
    over. *)
Fixpoint decodeFrom (skip : nat) (s : string) : string :=
  match s with
  | EmptyString => EmptyString
  | String c s' =>
      match skip with
      | S k => decodeFrom k s'
      | O =>
          match entityAt s with
          | Some (ch, n) => String ch (decodeFrom n s')
          | None => String c (decodeFrom 0 s')
          end
      end
  end.

Definition decodeEntities (s : string) : string := decodeFrom 0 s.

(** The characters of [s] before the first [c]. *)
Fixpoint takeUntil (c : ascii) (s : string) : string :=
  match s with
  | EmptyString => EmptyString
  | String a s' => if Ascii.eqb a c then EmptyString else String a (takeUntil c s')
  end.

Fixpoint dropChars (n : nat) (s : string) {struct n} : string :=
  match n, s with
  | S k, String _ s' => dropChars k s'
  | _, _ => s
  end.

(** What follows the first occurrence of [pat] in [s]. *)
Fixpoint afterFirst (pat s : string) : option string :=
  if startsWith s pat then Some (dropChars (String.length pat) s)
  else match s with
       | EmptyString => None
       | String _ s' => afterFirst pat s'
       end.

Definition tagName (tag : string) : string := takeUntil " " tag.

(** The value of the attribute [name="..."] of a tag. *)
Definition attribute (name : string) (tag : string) : option string :=
  match afterFirst (" " +:+ name +:+ "=" +:+ q) tag with
  | Some rest => Some (takeUntil dquote rest)
  | None => None
  end.

Record Folder := mkFolder {
  folder_name : string;
  folder_links : list (string * string)
}.

(** The element whose text comes next, if it is one the reader keeps. *)
Inductive Pending :=
  | NoElement
  | FolderName
  | LinkTitle (href : string).

Definition pendingAfter (tag : string) : Pending :=
  if String.eqb (tagName tag) "H3" then FolderName
  else if String.eqb (tagName tag) "A" then
    match attribute "HREF" tag with
    | Some href => LinkTitle href
    | None => NoElement
    end
  else NoElement.

(** Add a link to the folder opened last. *)
Fixpoint addToLast (folders : list Folder) (link : string * string) : list Folder :=
  match folders with
  | [] => [mkFolder "" [link]]
  | f :: rest =>
      match rest with
      | [] => [mkFolder (folder_name f) (folder_links f ++ [link])]
      | _ :: _ => f :: addToLast rest link
      end
  end.

Definition applyText (pending : Pending) (folders : list Folder) (text : string)
  : list Folder :=
  match pending with
  | NoElement => folders
  | FolderName => folders ++ [mkFolder (decodeEntities text) []]
  | LinkTitle href => addToLast folders (decodeEntities text, href)
  end.

(** The walk over the folder structure. *)
Fixpoint readTokens (pending : Pending) (folders : list Folder)
    (tokens : list Token) : list Folder :=
  match tokens with
  | [] => folders
  | Text t :: rest => readTokens NoElement (applyText pending folders t) rest
  | Tag t :: rest => readTokens (pendingAfter t) folders rest
  end.

(** The folder structure read from the text of an exported file. *)
Definition readExport (html : string) : list Folder :=
  readTokens NoElement [] (lex InText html).

(** Whether the character [c] occurs in [s]. *)
Fixpoint occurs (c : ascii) (s : string) : bool :=
  match s with
  | EmptyString => false
  | String a s' => Ascii.eqb a c || occurs c s'
  end.

Fixpoint pushString (t : string) (tokens : list Token) : list Token :=
  match t with
  | EmptyString => tokens
  | String c t' => pushChar c (pushString t' tokens)
  end.

(** Where the scan of a tag's content stands after [t]: inside a quoted
    value or not, or [None] when the tag was closed on the way. *)
Fixpoint quoteState (inQuotes : bool) (t : string) : option bool :=
  match t with
  | EmptyString => Some inQuotes
  | String c t' =>
      if inQuotes then
        if Ascii.eqb c dquote then quoteState false t' else quoteState true t'
      else if Ascii.eqb c ">" then None
      else if Ascii.eqb c dquote then quoteState true t'
      else quoteState false t'
  end.











(** ** Sample data *)

Definition sampleCategories : list Category.t :=
  [ Category.mk "dev" "Dev & Tools" "Code" None;
    Category.mk "read" "<Reading>" "BookOpen" None ].

Definition sampleGitHub : LinkItem.t :=
  LinkItem.mk "1" "GitHub" "https://github.com"
    (Some "https://github.com/favicon.ico") (Some "code hosting") "dev"
    1700000000123 (Some true).

Definition sampleOrphan : LinkItem.t :=
  LinkItem.mk "2" "Q&A 'site'" "https://example.org/?a=1&b=<2>"
    (Some "https://example.org/i.png") None "gone" 1999 None.

Definition sampleReact : LinkItem.t :=
  LinkItem.mk "3" "React" "https://react.dev" None None "dev" 0 None.

Definition sampleLinks : list LinkItem.t :=
  [sampleGitHub; sampleOrphan; sampleReact].






Definition emptyWorld : World :=
  mkWorld [] [] [] [] ∅ [] [] "" false Idle "".

Definition sampleConfig : WebDavConfig :=
  mkWebDavConfig "https://dav.example/backup" "user" "secret" true.

Definition sampleBtoa (s : string) : option string := Some s.

Definition sampleStringify (indent : option Z) (ls : list LinkItem.t)
    (cs : list Category.t) : string := "{}".

Definition rejectingNetwork (history : list Request) (request : Request)
  : FetchOutcome := FetchRejected.

Definition answeringNetwork (response : Response) (history : list Request)
    (request : Request) : FetchOutcome := FetchResolved response.

(** [{"links": [], "categories": []}] and [{"links": {}, "categories": []}] *)
Definition goodBackup : json :=
  JObject (<["links" := JArray []]> (<["categories" := JArray []]> ∅)).

Definition badBackup : json :=
  JObject (<["links" := JObject ∅]> (<["categories" := JArray []]> ∅)).

(** A signed-in state with two categories and one link. *)
Definition signedInWorld : World :=
  mkWorld [] [] [] [] (<[AUTH_KEY := "token"]> ∅) [sampleGitHub] sampleCategories
    "token" false Idle "bookmarks.html".

Definition sampleImport : ImportResult :=
  mkImportResult [sampleReact; sampleGitHub]
    [ Category.mk "n1" "Dev & Tools" "Folder" None;
      Category.mk "n2" "News" "Folder" None;
      Category.mk "n3" "News" "Folder" None ].

Definition sampleParser (file : string) : Outcome ImportResult :=
  Returned sampleImport.

(** ** More of [App]: the other handlers that change the record set *)

(** What [LinkModal] hands to [handleAddLink]: a link without its [id]
    and [createdAt]. *)
Record LinkData := mkLinkData {
  data_title : string;
  data_url : string;
  data_icon : option string;
  data_description : option string;
  data_categoryId : string;
  data_pinned : option bool
}.

(** Whether an optional flag is truthy. *)
Definition truthy (flag : option bool) : bool :=
  match flag with
  | Some true => true
  | _ => false
  end.

(** [{ ...l, pinned: !l.pinned }] *)
Definition flipPinned (l : LinkItem.t) : LinkItem.t :=
  LinkItem.mk (LinkItem.id l) (LinkItem.title l) (LinkItem.url l)
    (LinkItem.icon l) (LinkItem.description l) (LinkItem.categoryId l)
    (LinkItem.createdAt l) (Some (negb (truthy (LinkItem.pinned l)))).

Section Handlers.

Variable network : list Request → Request → FetchOutcome.
Variable JSON_stringify : option Z → list LinkItem.t → list Category.t → string.

Definition handleLogin (password : string) : Js bool :=
  w ← getWorld;
  tryCatch
    (response ← fetch network
                  (mkRequest "/api/storage" "POST"
                     [("Content-Type", "application/json");
                      ("x-auth-password", password)]
                     (Some (JSON_stringify None (links w) (categories w))));
     if ok response then
       setAuthToken password;;
       localStorage_setItem AUTH_KEY password;;
       setIsAuthOpen false;;
       setSyncStatus Saved;;
       mret true
     else mret false)
    (fun e => mret false).

(** [dateNow1] and [dateNow2] are the two readings of [Date.now()], for
    [id] and for [createdAt]. *)
Definition handleAddLink (dateNow1 dateNow2 : Z) (data : LinkData) : Js unit :=
  w ← getWorld;
  if decide (authToken w = "") then setIsAuthOpen true
  else
    let newLink :=
      LinkItem.mk (numberToString dateNow1) (data_title data) (data_url data)
        (data_icon data) (data_description data) (data_categoryId data)
        dateNow2 (data_pinned data) in
    updateData network JSON_stringify (authToken w) (newLink :: links w) (categories w).

(** [confirmed] is the answer of [confirm], asked only when a token is
    held. *)
Definition handleDeleteLink (id : string) (confirmed : bool) : Js unit :=
  w ← getWorld;
  if decide (authToken w = "") then setIsAuthOpen true
  else if confirmed then
    updateData network JSON_stringify (authToken w)
      (filter (λ l, LinkItem.id l ≠ id) (links w)) (categories w)
  else mret ().

Definition togglePin (id : string) : Js unit :=
  w ← getWorld;
  if decide (authToken w = "") then setIsAuthOpen true
  else
    let updated :=
      map (fun l => if decide (LinkItem.id l = id) then flipPinned l else l)
          (links w) in
    updateData network JSON_stringify (authToken w) updated (categories w).

Definition handleUpdateCategories (newCats : list Category.t) : Js unit :=
  w ← getWorld;
  if decide (authToken w = "") then setIsAuthOpen true
  else updateData network JSON_stringify (authToken w) (links w) newCats.

End Handlers.

(** ** [App]: locked categories and the lists shown *)

(** The [useState] cells of [App] that category selection touches. *)
Record ViewState := mkViewState {
  selectedCategory : string;
  sidebarOpen : bool;
  catAuthModalData : option Category.t;
  unlockedCategoryIds : gset string
}.

(** [cat.password] is truthy: present and not empty. *)
Definition hasPassword (cat : Category.t) : bool :=
  match Category.password cat with
  | Some p => negb (bool_decide (p = ""))
  | None => false
  end.

Definition isCategoryLocked (categories : list Category.t)
    (unlocked : gset string) (catId : string) : bool :=
  match List.find (fun c => bool_decide (Category.id c = catId)) categories with
  | None => false
  | Some cat =>
      if negb (hasPassword cat) then false
      else negb (bool_decide (catId ∈ unlocked))
  end.

Definition handleCategoryClick (cat : Category.t) (v : ViewState) : ViewState :=
  if hasPassword cat && negb (bool_decide (Category.id cat ∈ unlockedCategoryIds v))
  then mkViewState (selectedCategory v) false (Some cat) (unlockedCategoryIds v)
  else mkViewState (Category.id cat) false (catAuthModalData v)
         (unlockedCategoryIds v).




(** [s.includes(t)] *)
Fixpoint includes (s t : string) : bool :=
  startsWith s t ||
  match s with
  | EmptyString => false
  | String _ s' => includes s' t
  end.

(** [Array.prototype.sort] with the comparator [b.createdAt -
    a.createdAt]: the stable sort that puts the newest link first. *)
Fixpoint insertNewestFirst (x : LinkItem.t) (sorted : list LinkItem.t)
  : list LinkItem.t :=
  match sorted with
  | [] => [x]
  | y :: rest =>
      if decide (LinkItem.createdAt x < LinkItem.createdAt y)
      then y :: insertNewestFirst x rest
      else x :: y :: rest
  end.

Definition sortNewestFirst (ls : list LinkItem.t) : list LinkItem.t :=
  foldr insertNewestFirst [] ls.

Section Lists.

(** The string functions of the platform that depend on Unicode tables. *)
Variable toLowerCase : string → string.
Variable trim : string → string.

Definition pinnedLinks (links : list LinkItem.t) (categories : list Category.t)
    (unlocked : gset string) : list LinkItem.t :=
  filter (λ l, truthy (LinkItem.pinned l) = true ∧
               isCategoryLocked categories unlocked (LinkItem.categoryId l) = false)
         links.

(** The predicate of the search filter, [q] being the query in lower
    case. *)
Definition matchesSearch (q : string) (l : LinkItem.t) : bool :=
  includes (toLowerCase (LinkItem.title l)) q ||
  includes (toLowerCase (LinkItem.url l)) q ||
  match LinkItem.description l with
  | Some d => if decide (d = "") then false else includes (toLowerCase d) q
  | None => false
  end.

Definition displayedLinks (links : list LinkItem.t) (categories : list Category.t)
    (unlocked : gset string) (selectedCategory searchQuery : string)
  : list LinkItem.t :=
  let result :=
    filter (λ l, isCategoryLocked categories unlocked (LinkItem.categoryId l) = false)
           links in
  if decide (trim searchQuery = "") then
    let result :=
      if decide (selectedCategory = "all") then result
      else filter (λ l, LinkItem.categoryId l = selectedCategory) result in
    sortNewestFirst result
  else
    let q := toLowerCase searchQuery in
    filter (λ l, matchesSearch q l = true) result.

End Lists.

(** ** [CategoryManagerModal] ([src/components/CategoryManagerModal.tsx]) *)

(** A JavaScript array that may have holes: reading outside it, or a
    hole, gives [undefined] ([None]); writing past its end extends it. *)
Definition arrayGet {A : Type} (a : list (option A)) (i : nat) : option A :=
  default None (a !! i).

Definition arraySet {A : Type} (a : list (option A)) (i : nat) (v : option A)
  : list (option A) :=
  if decide (i < length a)%nat then <[i := v]> a
  else a ++ replicate (i - length a) None ++ [v].

Inductive Direction := Up | Down.

(** The array that [handleMove] passes to [onUpdateCategories]. *)
Definition handleMove (categories : list Category.t) (index : nat)
    (direction : Direction) : list (option Category.t) :=
  let newCats := map Some categories in
  match direction with
  | Up =>
      if decide (0 < index)%nat then
        let moved := (arrayGet newCats (index - 1), arrayGet newCats index) in
        arraySet (arraySet newCats index moved.1) (index - 1) moved.2
      else newCats
  | Down =>
      if decide (index < length newCats - 1)%nat then
        let moved := (arrayGet newCats (index + 1), arrayGet newCats index) in
        arraySet (arraySet newCats index moved.1) (index + 1) moved.2
      else newCats
  end.

(** The [useState] cells of [CategoryManagerModal]. *)
Record ManagerState := mkManagerState {
  editingId : option string;
  editName : string;
  editPassword : string;
  newCatName : string;
  newCatPassword : string
}.

(** [text.trim() || undefined] *)
Definition optionalText (trimmed : string) : option string :=
  if decide (trimmed = "") then None else Some trimmed.

Section Manager.

Variable trim : string → string.

Definition startEdit (cat : Category.t) (m : ManagerState) : ManagerState :=
  mkManagerState (Some (Category.id cat)) (Category.name cat)
    (default "" (Category.password cat)) (newCatName m) (newCatPassword m).

(** The new state of the modal, and the array passed to
    [onUpdateCategories] when it is called. *)
Definition saveEdit (categories : list Category.t) (m : ManagerState)
  : ManagerState * option (list Category.t) :=
  match editingId m with
  | None => (m, None)
  | Some id =>
      if decide (id = "") then (m, None)
      else if decide (trim (editName m) = "") then (m, None)
      else
        let newCats :=
          map (fun c =>
                 if decide (Category.id c = id) then
                   Category.mk (Category.id c) (trim (editName m)) (Category.icon c)
                     (optionalText (trim (editPassword m)))
                 else c) categories in
        (mkManagerState None (editName m) (editPassword m)
           (newCatName m) (newCatPassword m),
         Some newCats)
  end.

Definition handleAdd (dateNow : Z) (categories : list Category.t) (m : ManagerState)
  : ManagerState * option (list Category.t) :=
  if decide (trim (newCatName m) = "") then (m, None)
  else
    let newCat :=
      Category.mk (numberToString dateNow) (trim (newCatName m)) "Folder"
        (optionalText (trim (newCatPassword m))) in
    (mkManagerState (editingId m) (editName m) (editPassword m) "" "",
     Some (categories ++ [newCat])).

End Manager.

(** ** Relations used to state properties of the export *)

(** Two links that the export cannot tell apart, and two categories. *)
Definition sameAnchor (l l' : LinkItem.t) : Prop :=
  LinkItem.title l = LinkItem.title l' ∧
  LinkItem.url l = LinkItem.url l' ∧
  LinkItem.icon l = LinkItem.icon l' ∧
  LinkItem.categoryId l = LinkItem.categoryId l' ∧
  LinkItem.createdAt l / 1000 = LinkItem.createdAt l' / 1000.

Definition sameFolder (c c' : Category.t) : Prop :=
  Category.id c = Category.id c' ∧ Category.name c = Category.name c'.

(** ** User actions on [App]

    One constructor for each handler modelled, with the arguments it is
    called with; [perform] runs the handler and gives the state it
    leaves.  These are seven handlers of [App]: [handleImport],
    [handleDeleteCategory], [handleAddLink], [handleDeleteLink],
    [togglePin], [handleUpdateCategories] and [handleLogin].  The
    others ([handleEditLink], [handleRestoreBackup],
    [handleSaveWebDavConfig], [toggleTheme]) and the actions of
    [BackupModal] are not among them, and a property over [Action] says
    nothing of them. *)

Inductive Action :=
  | Import (file : option string)
  | DeleteCategory (catId : string)
  | AddLink (dateNow1 dateNow2 : Z) (data : LinkData)
  | DeleteLink (id : string) (confirmed : bool)
  | TogglePin (id : string)
  | UpdateCategories (newCats : list Category.t)
  | Login (password : string).

Section Actions.

Variable network : list Request → Request → FetchOutcome.
Variable JSON_stringify : option Z → list LinkItem.t → list Category.t → string.
Variable parseBookmarks : string → Outcome ImportResult.

Definition perform (w : World) (a : Action) : World :=
  match a with
  | Import file => (handleImport network JSON_stringify parseBookmarks file w).2
  | DeleteCategory catId => (handleDeleteCategory network JSON_stringify catId w).2
  | AddLink dateNow1 dateNow2 data =>
      (handleAddLink network JSON_stringify dateNow1 dateNow2 data w).2
  | DeleteLink id confirmed =>
      (handleDeleteLink network JSON_stringify id confirmed w).2
  | TogglePin id => (togglePin network JSON_stringify id w).2
  | UpdateCategories newCats =>
      (handleUpdateCategories network JSON_stringify newCats w).2
  | Login password => (handleLogin network JSON_stringify password w).2
  end.

(** What a handler leaves alone when it does not get as far as
    [updateData]. *)
Definition unchangedData (w w' : World) : Prop :=
  links w' = links w ∧ categories w' = categories w ∧
  localStorage w' = localStorage w ∧ authToken w' = authToken w.

(** The three ways an action can end: without touching the records or
    the token; after [updateData], reached only with a token; or, for a
    sign-in that the server accepts, with the new token stored. *)
Definition actionEffect (a : Action) (w w' : World) : Prop :=
  (unchangedData w w' ∧
   (sent w' = sent w ∨
    ∃ p, a = Login p ∧
         sent w' = sent w ++
           [storageRequest JSON_stringify (links w) (categories w) p])) ∨
  (∃ ls cs w2,
     authToken w ≠ "" ∧ (∀ p, a ≠ Login p) ∧
     w2 = (updateData network JSON_stringify (authToken w) ls cs w).2 ∧
     unchangedData w2 w' ∧ sent w' = sent w2) ∨
  (∃ p, a = Login p ∧ links w' = links w ∧ categories w' = categories w ∧
        localStorage w' = <[AUTH_KEY := p]> (localStorage w) ∧ authToken w' = p ∧
        sent w' = sent w ++
          [storageRequest JSON_stringify (links w) (categories w) p]).

(** The copy of the records in [localStorage] is the current one. *)
Definition cacheMirrorsState (w : World) : Prop :=
  localStorage w !! LOCAL_STORAGE_KEY =
  Some (JSON_stringify None (links w) (categories w)).

End Actions.

(** The token held in memory is the persisted one, or empty when none
    is persisted. *)
Definition tokenPersisted (w : World) : Prop :=
  authToken w = default "" (localStorage w !! AUTH_KEY).

(** The same link, up to how its [pinned] flag is written: absent and
    [false] both mean not pinned. *)
Definition samePinnedness (l l' : LinkItem.t) : Prop :=
  LinkItem.id l' = LinkItem.id l ∧ LinkItem.title l' = LinkItem.title l ∧
  LinkItem.url l' = LinkItem.url l ∧ LinkItem.icon l' = LinkItem.icon l ∧
  LinkItem.description l' = LinkItem.description l ∧
  LinkItem.categoryId l' = LinkItem.categoryId l ∧
  LinkItem.createdAt l' = LinkItem.createdAt l ∧
  truthy (LinkItem.pinned l') = truthy (LinkItem.pinned l).

(** Every link is at least as new as those after it. *)
Fixpoint newestFirst (ls : list LinkItem.t) : Prop :=
  match ls with
  | [] => True
  | x :: rest =>
      Forall (λ y, LinkItem.createdAt y ≤ LinkItem.createdAt x) rest ∧
      newestFirst rest
  end.

(** ** More sample data *)

Definition acceptingNetwork : list Request → Request → FetchOutcome :=
  answeringNetwork (mkResponse 200 BodyNotJson).

Definition failingBtoa (s : string) : option string := None.

Definition failingParser (file : string) : Outcome ImportResult :=
  Thrown (Error "not a bookmark file").

Definition sampleIdentity (s : string) : string := s.

(** The same link as [sampleGitHub] for the export: another identifier,
    description and pin, created in the same second. *)
Definition sampleGitHubTwin : LinkItem.t :=
  LinkItem.mk "other" "GitHub" "https://github.com"
    (Some "https://github.com/favicon.ico") None "dev" 1700000000999 None.

Definition sampleCategoriesTwin : list Category.t :=
  [ Category.mk "dev" "Dev & Tools" "Folder" (Some "secret");
    Category.mk "read" "<Reading>" "Star" None ].

(** A signed-in state whose cache holds what [sampleStringify] prints. *)
Definition cachedWorld : World :=
  mkWorld [] [] [] []
    (<[LOCAL_STORAGE_KEY := "{}"]> (<[AUTH_KEY := "token"]> ∅))
    sampleLinks sampleCategories "token" false Idle "".

Definition signedOutWorld : World :=
  mkWorld [] [] [] [] ∅ sampleLinks sampleCategories "" false Idle "".

Definition sampleLinkData : LinkData :=
  mkLinkData "Rocq" "https://rocq-prover.org" None None "dev" None.

Definition sampleActions : list Action :=
  [ TogglePin "1";
    AddLink 1700000000500 1700000000501 sampleLinkData;
    DeleteCategory "read";
    Import (Some "bookmarks.html");
    DeleteLink "3" true;
    Login "other password";
    UpdateCategories sampleCategoriesTwin ].

(** A category with a password, and the modal holding that password. *)
Definition lockedCategory : Category.t :=
  Category.mk "dev" "Dev & Tools" "Code" (Some "secret").


Definition sampleManager : ManagerState :=
  mkManagerState (Some "dev") "Tools" "" "News" "".

(** * Properties *)

Example gen_demo :
  generateBookmarkHtml 5000
    [LinkItem.mk "1" "a<b" "http://x" (Some "i") None "dev" 1999 None;
     LinkItem.mk "2" "t" "u" (Some "j") None "zzz" (-1) None]
    [Category.mk "dev" "D&D" "Code" None] =
  bookmarkHeader +:+
  "    <DT><H3 ADD_DATE=" +:+ q +:+ "5" +:+ q +:+ " LAST_MODIFIED=" +:+ q +:+ "5" +:+ q +:+ ">D&amp;D</H3>" +:+ nl +:+
  "    <DL><p>" +:+ nl +:+
  "        <DT><A HREF=" +:+ q +:+ "http://x" +:+ q +:+ " ADD_DATE=" +:+ q +:+ "1" +:+ q +:+ " ICON=" +:+ q +:+ "i" +:+ q +:+ ">a&lt;b</A>" +:+ nl +:+
  "    </DL><p>" +:+ nl +:+
  "    <DT><H3 ADD_DATE=" +:+ q +:+ "5" +:+ q +:+ " LAST_MODIFIED=" +:+ q +:+ "5" +:+ q +:+ ">未分类</H3>" +:+ nl +:+
  "    <DL><p>" +:+ nl +:+
  "        <DT><A HREF=" +:+ q +:+ "u" +:+ q +:+ " ADD_DATE=" +:+ q +:+ "-1" +:+ q +:+ ">t</A>" +:+ nl +:+
  "    </DL><p>" +:+ nl +:+
  "</DL><p>".
Proof. vm_compute. reflexivity. Qed.

Section StringLemmas.

Lemma append_nil_l (a : string) : "" +:+ a = a.
Proof. reflexivity. Qed.

Lemma append_cons (x : ascii) (a b : string) :
  String x a +:+ b = String x (a +:+ b).
Proof. reflexivity. Qed.

Lemma append_assoc (a b c : string) : (a +:+ b) +:+ c = a +:+ (b +:+ c).
Proof.
  induction a as [|x a IH]; [done |].
  by rewrite !append_cons, IH.
Qed.

Lemma append_nil_r (a : string) : a +:+ "" = a.
Proof.
  induction a as [|x a IH]; [done |].
  by rewrite append_cons, IH.
Qed.

Lemma fold_left_append {A : Type} (f : A → string) (xs : list A) (init : string) :
  fold_left (fun html x => html +:+ f x) xs init = init +:+ concatMap f xs.
Proof.
  revert init. induction xs as [|x xs IH]; intros init; simpl.
  - by rewrite append_nil_r.
  - by rewrite IH, append_assoc.
Qed.

End StringLemmas.

Section Grouping.

Lemma groupLink_fold_lookup (links : list LinkItem.t)
    (m : gmap string (list LinkItem.t)) (k : string) :
  default [] (fold_left groupLink links m !! k) =
  default [] (m !! k) ++ linksOf links k.
Proof.
  revert m. induction links as [|l links IH]; intros m; simpl.
  - by rewrite app_nil_r.
  - rewrite IH. unfold groupLink, linksOf. rewrite filter_cons.
    destruct (decide (LinkItem.categoryId l = k)) as [->|Hne].
    + rewrite lookup_insert_eq. simpl. by rewrite <- app_assoc.
    + by rewrite lookup_insert_ne.
Qed.

(** [linksByCat.get(k) || []] lists the links whose category
    identifier is [k], in input order. *)
Lemma linksByCat_get (links : list LinkItem.t) (k : string) :
  default [] (linksByCat links !! k) = linksOf links k.
Proof. unfold linksByCat. by rewrite groupLink_fold_lookup, lookup_empty. Qed.

End Grouping.

(** The generator produces exactly the layout above. *)
Lemma generateBookmarkHtml_layout (dateNow : Z)
    (links : list LinkItem.t) (categories : list Category.t) :
  generateBookmarkHtml dateNow links categories =
  bookmarkLayout dateNow links categories.
Proof.
  unfold generateBookmarkHtml, bookmarkLayout.
  set (now := dateNow / 1000).
  assert (Hcats : ∀ cs init,
    fold_left (fun html cat =>
      fold_left (fun html link => html +:+ categoryAnchor link)
        (default [] (linksByCat links !! Category.id cat))
        ((html +:+ folderTitleLine now (escapeHtml (Category.name cat)))
           +:+ folderOpenLine) +:+ folderCloseLine) cs init =
    init +:+ concatMap (categoryFolder now links) cs).
  { induction cs as [|c cs IH]; intros init; simpl.
    - by rewrite append_nil_r.
    - rewrite IH, fold_left_append, linksByCat_get. unfold categoryFolder.
      by rewrite !append_assoc. }
  rewrite Hcats.
  destruct (uncategorized links categories) as [|u us] eqn:Hu; simpl.
  - by rewrite !append_assoc.
  - by rewrite fold_left_append, !append_assoc.
Qed.

Section Escaping.

Lemma replaceAll_append (c : ascii) (r a b : string) :
  replaceAll c r (a +:+ b) = replaceAll c r a +:+ replaceAll c r b.
Proof.
  induction a as [|x a IH]; [done |].
  rewrite append_cons. simpl. rewrite IH.
  destruct (decide (x = c)); [by rewrite append_assoc | done].
Qed.

Lemma replaceAll_other (c x : ascii) (r : string) :
  x ≠ c → replaceAll c r (String x "") = String x "".
Proof. intros Hne. simpl. by rewrite decide_False. Qed.

Lemma escapeHtml_append (a b : string) :
  escapeHtml (a +:+ b) = escapeHtml a +:+ escapeHtml b.
Proof. unfold escapeHtml. by rewrite !replaceAll_append. Qed.

Lemma escapeHtml_char (c : ascii) : escapeHtml (String c "") = escapeChar c.
Proof.
  unfold escapeChar.
  destruct (decide (c = "&"%char)) as [->|H1]; [done |].
  destruct (decide (c = "<"%char)) as [->|H2]; [done |].
  destruct (decide (c = ">"%char)) as [->|H3]; [done |].
  destruct (decide (c = dquote)) as [->|H4]; [done |].
  destruct (decide (c = squote)) as [->|H5]; [done |].
  unfold escapeHtml. by rewrite !replaceAll_other.
Qed.

(** The five passes of the source are the one-pass replacement. *)
Lemma escapeHtml_escapeEach (s : string) : escapeHtml s = escapeEach s.
Proof.
  induction s as [|c s IH]; [done |].
  change (String c s) with (String c "" +:+ s).
  rewrite escapeHtml_append, escapeHtml_char, IH. done.
Qed.

End Escaping.

Example escapeHtml_demo :
  escapeHtml ("a&b<c>" +:+ q +:+ "d'e&amp;") =
  "a&amp;b&lt;c&gt;&quot;d&#039;e&amp;amp;".
Proof. vm_compute. reflexivity. Qed.

Section Folders.

Lemma elem_of_validCatIds (k : string) (categories : list Category.t) :
  k ∈ validCatIds categories ↔ k ∈ map Category.id categories.
Proof. unfold validCatIds. by rewrite elem_of_list_to_set. Qed.



Lemma occurrences_uncategorized (l : LinkItem.t) links categories :
  LinkItem.categoryId l ∉ map Category.id categories →
  occurrences l (uncategorized links categories) = occurrences l links.
Proof.
  intros Hdangling. unfold occurrences, uncategorized.
  induction links as [|x links IH]; [done |].
  rewrite !filter_cons.
  destruct (decide (LinkItem.categoryId x ∉ validCatIds categories)) as [Hx|Hx].
  - rewrite filter_cons. destruct (decide (x = l)); simpl; by rewrite IH.
  - destruct (decide (x = l)) as [->|Hne]; [|done].
    exfalso. apply Hx. by rewrite elem_of_validCatIds.
Qed.

Lemma uncategorized_nil_iff links categories :
  uncategorized links categories = [] ↔
  Forall (λ l, LinkItem.categoryId l ∈ map Category.id categories) links.
Proof.
  unfold uncategorized. induction links as [|x links IH]; [done |].
  rewrite filter_cons, Forall_cons, <- IH.
  destruct (decide (LinkItem.categoryId x ∉ validCatIds categories)) as [Hx|Hx].
  - rewrite elem_of_validCatIds in Hx. split; [done | tauto].
  - rewrite elem_of_validCatIds in Hx.
    apply dec_stable in Hx. tauto.
Qed.

Lemma uncategorized_dangling links categories :
  uncategorized links categories = filter (dangling categories) links.
Proof.
  unfold uncategorized. apply list_filter_iff. intros l. unfold dangling.
  by rewrite elem_of_validCatIds.
Qed.

End Folders.

(** ** The generator writes the text of a bookmark file *)

Section ExpectedText.

Lemma concatMap_ext {A : Type} (f g : A → string) (xs : list A) :
  (∀ x, x ∈ xs → f x = g x) → concatMap f xs = concatMap g xs.
Proof.
  induction xs as [|x xs IH]; intros Hfg; simpl; [done |].
  rewrite Hfg by apply list_elem_of_here.
  rewrite IH; [done |]. intros y Hy. by apply Hfg, list_elem_of_further.
Qed.

Lemma concatMap_app {A : Type} (f : A → string) (xs ys : list A) :
  concatMap f (xs ++ ys) = concatMap f xs +:+ concatMap f ys.
Proof.
  induction xs as [|x xs IH]; simpl; [done |]. by rewrite IH, append_assoc.
Qed.

Lemma bookmarkHeader_text : bookmarkHeader = fileHeading.
Proof. reflexivity. Qed.

Lemma folderTitleLine_text (now : Z) (x : string) :
  folderTitleLine now x = headingText now x.
Proof.
  unfold folderTitleLine, headingText, attributeText.
  rewrite !append_assoc. reflexivity.
Qed.

Lemma categoryAnchor_text (l : LinkItem.t) : categoryAnchor l = categoryAnchorText l.
Proof.
  unfold categoryAnchor, categoryAnchorText, anchorText, attributeText, iconAttr,
    presentIcon.
  rewrite escapeHtml_escapeEach.
  destruct (LinkItem.icon l) as [i|]; [case_decide |];
    rewrite !append_assoc; reflexivity.
Qed.

Lemma uncategorizedAnchor_text (l : LinkItem.t) :
  uncategorizedAnchor l = trailingAnchorText l.
Proof.
  unfold uncategorizedAnchor, trailingAnchorText, anchorText, attributeText.
  rewrite escapeHtml_escapeEach, !append_assoc. reflexivity.
Qed.

Lemma categoryFolder_text (now : Z) (links : list LinkItem.t) (cat : Category.t) :
  categoryFolder now links cat = categoryFolderText now links cat.
Proof.
  unfold categoryFolder, categoryFolderText, linksOf.
  rewrite escapeHtml_escapeEach, folderTitleLine_text.
  f_equal. f_equal. f_equal.
  apply concatMap_ext. intros l _. apply categoryAnchor_text.
Qed.

Lemma uncategorizedFolder_text (now : Z) (rest : list LinkItem.t) :
  uncategorizedFolder now rest = trailingFolderText now rest.
Proof.
  unfold uncategorizedFolder, trailingFolderText.
  destruct rest as [|l rest]; [done |].
  rewrite folderTitleLine_text. f_equal. f_equal. f_equal.
  apply concatMap_ext. intros x _. apply uncategorizedAnchor_text.
Qed.

(** The generated document, folder by folder, in that text. *)
Lemma generateBookmarkHtml_text (dateNow : Z)
    (links : list LinkItem.t) (categories : list Category.t) :
  generateBookmarkHtml dateNow links categories =
  fileHeading +:+
  concatMap (categoryFolderText (dateNow / 1000) links) categories +:+
  trailingFolderText (dateNow / 1000) (filter (dangling categories) links) +:+
  "</DL><p>".
Proof.
  rewrite generateBookmarkHtml_layout. unfold bookmarkLayout.
  rewrite bookmarkHeader_text, uncategorizedFolder_text, uncategorized_dangling.
  f_equal. f_equal.
  apply concatMap_ext. intros cat _. apply categoryFolder_text.
Qed.

(** A link takes part in the folder of a category only through its
    category identifier. *)
Lemma categoryFolderText_without (now : Z) (before after : list LinkItem.t)
    (l : LinkItem.t) (cat : Category.t) :
  LinkItem.categoryId l ≠ Category.id cat →
  categoryFolderText now (before ++ l :: after) cat =
  categoryFolderText now (before ++ after) cat.
Proof.
  intros Hne. unfold categoryFolderText.
  by rewrite !filter_app, filter_cons_False.
Qed.

End ExpectedText.

(** C2 (the code departs from the claim).  [escapeHtml] replaces each
    of [&], [<], [>], the double quote and the single quote by its
    entity and keeps every other character ([escapeEach]).  The
    generated document is spelled out: every category name and every
    link title is written escaped, and every URL is put between the
    quotes of [HREF] as it is.  An icon reference is put between the
    quotes of [ICON] as it is in the anchors of a category's folder,
    but the anchors of the trailing folder carry no [ICON] at all: the
    same link, with an icon reference, is written with it under a
    category and without it in the trailing folder. *)
Theorem escaping_of_names_and_titles (dateNow : Z)
    (links : list LinkItem.t) (categories : list Category.t) :
  (∀ s, escapeHtml s = escapeEach s) ∧
  generateBookmarkHtml dateNow links categories =
    fileHeading +:+
    concatMap (fun cat =>
      headingText (dateNow / 1000) (escapeEach (Category.name cat)) +:+
      listOpens +:+
      concatMap (fun l =>
        anchorText (LinkItem.url l) (LinkItem.createdAt l / 1000)
          (presentIcon l) (escapeEach (LinkItem.title l)))
        (filter (λ l, LinkItem.categoryId l = Category.id cat) links) +:+
      listCloses) categories +:+
    match filter (dangling categories) links with
    | [] => ""
    | rest =>
        headingText (dateNow / 1000) "未分类" +:+ listOpens +:+
        concatMap (fun l =>
          anchorText (LinkItem.url l) (LinkItem.createdAt l / 1000) None
            (escapeEach (LinkItem.title l))) rest +:+
        listCloses
    end +:+
    "</DL><p>" ∧
  (let l := LinkItem.mk "1" "a<b" "http://x/?a=1&b=2"
              (Some "http://x/i.png?s=1&t=2") None "gone" 1500 None in
   generateBookmarkHtml 0 [l] [Category.mk "gone" "D&D" "Folder" None] =
     fileHeading +:+
     "    <DT><H3 ADD_DATE=" +:+ doubleQuote +:+ "0" +:+ doubleQuote +:+
     " LAST_MODIFIED=" +:+ doubleQuote +:+ "0" +:+ doubleQuote +:+
     ">D&amp;D</H3>" +:+ lineEnd +:+
     "    <DL><p>" +:+ lineEnd +:+
     "        <DT><A HREF=" +:+ doubleQuote +:+ "http://x/?a=1&b=2" +:+ doubleQuote +:+
     " ADD_DATE=" +:+ doubleQuote +:+ "1" +:+ doubleQuote +:+
     " ICON=" +:+ doubleQuote +:+ "http://x/i.png?s=1&t=2" +:+ doubleQuote +:+
     ">a&lt;b</A>" +:+ lineEnd +:+
     "    </DL><p>" +:+ lineEnd +:+
     "</DL><p>" ∧
   generateBookmarkHtml 0 [l] [] =
     fileHeading +:+
     "    <DT><H3 ADD_DATE=" +:+ doubleQuote +:+ "0" +:+ doubleQuote +:+
     " LAST_MODIFIED=" +:+ doubleQuote +:+ "0" +:+ doubleQuote +:+
     ">未分类</H3>" +:+ lineEnd +:+
     "    <DL><p>" +:+ lineEnd +:+
     "        <DT><A HREF=" +:+ doubleQuote +:+ "http://x/?a=1&b=2" +:+ doubleQuote +:+
     " ADD_DATE=" +:+ doubleQuote +:+ "1" +:+ doubleQuote +:+
     ">a&lt;b</A>" +:+ lineEnd +:+
     "    </DL><p>" +:+ lineEnd +:+
     "</DL><p>").
Proof.
  split; [exact escapeHtml_escapeEach |]. split.
  - rewrite generateBookmarkHtml_text. unfold trailingFolderText.
    by destruct (filter (dangling categories) links).
  - split; vm_compute; reflexivity.
Qed.

(** C3.  Take any place of the input list, [l] being the link at that
    place.  When the category identifier of [l] is the identifier of
    no category, the category folders of the document are those of the
    input without [l], so that [l] is written in none of them, and the
    document ends with the folder headed [未分类], in which the anchor
    of [l] stands once, between the anchors of the dangling links
    before it and those after it.  When the category identifier of [l]
    is that of some category, the trailing folder is that of the input
    without [l]: [l] is not written there. *)
Theorem dangling_link_only_in_uncategorized (dateNow : Z)
    (before after : list LinkItem.t) (categories : list Category.t)
    (l : LinkItem.t) :
  let now := dateNow / 1000 in
  (LinkItem.categoryId l ∉ map Category.id categories →
   generateBookmarkHtml dateNow (before ++ l :: after) categories =
     fileHeading +:+
     concatMap (categoryFolderText now (before ++ after)) categories +:+
     headingText now "未分类" +:+ listOpens +:+
     concatMap trailingAnchorText (filter (dangling categories) before) +:+
     anchorText (LinkItem.url l) (LinkItem.createdAt l / 1000) None
       (escapeEach (LinkItem.title l)) +:+
     concatMap trailingAnchorText (filter (dangling categories) after) +:+
     listCloses +:+
     "</DL><p>") ∧
  (LinkItem.categoryId l ∈ map Category.id categories →
   generateBookmarkHtml dateNow (before ++ l :: after) categories =
     fileHeading +:+
     concatMap (categoryFolderText now (before ++ l :: after)) categories +:+
     trailingFolderText now (filter (dangling categories) (before ++ after)) +:+
     "</DL><p>").
Proof.
  intros now. split; intros Hid; rewrite generateBookmarkHtml_text; fold now.
  - rewrite (concatMap_ext (categoryFolderText now (before ++ l :: after))
               (categoryFolderText now (before ++ after))).
    + rewrite filter_app, filter_cons_True by exact Hid.
      f_equal. f_equal. unfold trailingFolderText.
      destruct (filter (dangling categories) before ++
                l :: filter (dangling categories) after) as [|x xs] eqn:Heq.
      { by destruct (filter (dangling categories) before). }
      rewrite <- Heq, concatMap_app. simpl.
      unfold trailingAnchorText at 2. by rewrite !append_assoc.
    + intros cat Hcat. apply categoryFolderText_without. intros Heq.
      apply Hid. rewrite Heq. by apply list_elem_of_fmap_2.
  - rewrite !filter_app, filter_cons_False; [done |].
    unfold dangling. by intros Hnot.
Qed.

(** C10.  The document is the heading of the file, one folder per
    category, the trailing folder and the closing line.  The trailing
    folder, headed by the [<H3>] line that shows [未分类], is written
    exactly when some input link has a category identifier that is no
    category's identifier; otherwise nothing stands between the last
    category folder and the closing line.  A category that no link
    belongs to still has its folder in the document, at its place: the
    heading line with its name, followed by the two list lines with
    nothing between them. *)
Theorem uncategorized_folder_iff_dangling (dateNow : Z)
    (links : list LinkItem.t) (categories : list Category.t) :
  let now := dateNow / 1000 in
  let trailing :=
    if decide (Exists (λ l, LinkItem.categoryId l ∉ map Category.id categories) links)
    then headingText now "未分类" +:+ listOpens +:+
         concatMap trailingAnchorText (filter (dangling categories) links) +:+
         listCloses
    else "" in
  generateBookmarkHtml dateNow links categories =
    fileHeading +:+
    concatMap (categoryFolderText now links) categories +:+
    trailing +:+
    "</DL><p>" ∧
  (∀ earlier cat later,
     categories = earlier ++ cat :: later →
     Forall (λ l, LinkItem.categoryId l ≠ Category.id cat) links →
     generateBookmarkHtml dateNow links categories =
       fileHeading +:+
       concatMap (categoryFolderText now links) earlier +:+
       headingText now (escapeEach (Category.name cat)) +:+
       "    <DL><p>" +:+ lineEnd +:+
       "    </DL><p>" +:+ lineEnd +:+
       concatMap (categoryFolderText now links) later +:+
       trailing +:+
       "</DL><p>").
Proof.
  intros now trailing.
  assert (Htrailing :
    trailingFolderText now (filter (dangling categories) links) = trailing).
  { subst trailing. unfold trailingFolderText.
    destruct (decide (Exists _ links)) as [Hex|Hnex].
    - destruct (filter (dangling categories) links) as [|x xs] eqn:Heq; [|done].
      exfalso. apply Exists_exists in Hex as (x & Hx & Hdangling).
      assert (Hin : x ∈ filter (dangling categories) links)
        by by apply list_elem_of_filter.
      rewrite Heq in Hin. by apply elem_of_nil in Hin.
    - destruct (filter (dangling categories) links) as [|x xs] eqn:Heq; [done |].
      exfalso. apply Hnex, Exists_exists. exists x.
      assert (Hin : x ∈ filter (dangling categories) links)
        by (rewrite Heq; apply list_elem_of_here).
      apply list_elem_of_filter in Hin as [Hx Hin]. done. }
  split.
  - rewrite generateBookmarkHtml_text. fold now. by rewrite Htrailing.
  - intros earlier cat later -> Hnone.
    rewrite generateBookmarkHtml_text. fold now. rewrite Htrailing.
    rewrite concatMap_app. simpl. unfold categoryFolderText at 2.
    assert (Hempty : filter (λ l, LinkItem.categoryId l = Category.id cat) links = []).
    { clear -Hnone. induction Hnone as [|x xs Hx _ IH]; [done |].
      by rewrite filter_cons_False. }
    rewrite Hempty. simpl. rewrite !append_assoc. reflexivity.
Qed.

(** C8 (the code departs from the claim).  The same link, with an icon
    reference, exported once under a category it belongs to and once
    with a category identifier that matches nothing: both anchors carry
    [ADD_DATE] in whole seconds, the first carries [ICON], the second
    does not. *)
Theorem uncategorized_anchor_omits_icon :
  let l := LinkItem.mk "1" "t" "http://x" (Some "http://x/i.png") None
                       "gone" 1500 None in
  generateBookmarkHtml 0 [l] [Category.mk "gone" "G" "Folder" None] =
    bookmarkHeader +:+ folderTitleLine 0 "G" +:+ folderOpenLine +:+
    anchorLine "http://x" 1 (" ICON=" +:+ q +:+ "http://x/i.png" +:+ q) "t" +:+
    folderCloseLine +:+ "</DL><p>" ∧
  generateBookmarkHtml 0 [l] [] =
    bookmarkHeader +:+ folderTitleLine 0 uncategorizedLabel +:+ folderOpenLine +:+
    anchorLine "http://x" 1 "" "t" +:+
    folderCloseLine +:+ "</DL><p>".
Proof. split; vm_compute; reflexivity. Qed.

(** ** Properties of the transport and of the handlers *)

Ltac js_unfold :=
  unfold tryCatch, fetch, response_json, encodeAuth, getProperty, throw, settle,
    getWorld, console_error, alert, setTimeout, localStorage_setItem,
    localStorage_removeItem, withLocalStorage, setLinks, setCategories,
    setAuthToken, setIsAuthOpen, setSyncStatus, clearFileInput, modify,
    mbind, Js_bind, mret, Js_ret in *.

Section TransportProperties.

Variable network : list Request → Request → FetchOutcome.
Variable btoa : string → option string.
Variable JSON_stringify : option Z → list LinkItem.t → list Category.t → string.

(** C4.  When the request is answered with a success status and a body
    that decodes to [data], [downloadBackup] returns [data] if its two
    top-level fields [links] and [categories] are arrays and [null]
    otherwise; it does not throw. *)
Theorem downloadBackup_validates_arrays
    (config : WebDavConfig) (w : World) (auth : string)
    (response : Response) (data : json) :
  btoa (cfg_username config +:+ ":" +:+ cfg_password config) = Some auth →
  network (sent w)
    (mkRequest (backupUrl config) "GET"
       [("Authorization", "Basic " +:+ auth)] None) = FetchResolved response →
  ok response = true →
  body response = BodyJson data →
  (downloadBackup network btoa config w).1 =
    Returned (if fieldsAreArrays data then Some data else None).
Proof.
  intros Hauth Hnet Hok Hbody.
  unfold downloadBackup, downloadBackup_try, downloadBackup_catch. js_unfold.
  rewrite Hauth, Hnet, Hok, Hbody. simpl.
  destruct data as [| | | | |fields]; simpl; try done.
  by destruct (isArray (fields !! "links") && isArray (fields !! "categories")).
Qed.

Lemma tryCatch_returns {A : Type} (body : Js A) (handler : JsError → Js A)
    (sentinel : A) (w : World) :
  (∀ e w1, ∃ w2, handler e w1 = (Returned sentinel, w2) ∧ sent w2 = sent w1) →
  (∃ a w', tryCatch body handler w = (Returned a, w') ∧
           sent w' = sent (body w).2) ∧
  (∀ e w1, body w = (Thrown e, w1) → (tryCatch body handler w).1 = Returned sentinel).
Proof.
  intros Hhandler. unfold tryCatch.
  destruct (body w) as [[a|e] w1] eqn:Hbody.
  - split; [by exists a, w1 | done].
  - destruct (Hhandler e w1) as (w2 & -> & Hsent).
    split; [by exists sentinel, w2 | done].
Qed.

Lemma encodeAuth_fetch_sends_at_most_one {A : Type}
    (user pass : string) (mk : string → Request) (k : Response → Js A) (w : World) :
  (∀ r w1, sent (k r w1).2 = sent w1) →
  (length (sent ((auth ← encodeAuth btoa user pass;
                  response ← fetch network (mk auth);
                  k response) w).2) ≤ S (length (sent w)))%nat.
Proof.
  intros Hk. js_unfold.
  destruct (btoa _) as [auth|]; simpl; [|lia].
  destruct (network _ _) as [|r]; simpl.
  - rewrite length_app. simpl. lia.
  - specialize (Hk r (mkWorld (sent w ++ [mk auth]) (console w) (alerts w)
                        (timers w) (localStorage w) (links w) (categories w)
                        (authToken w) (isAuthOpen w) (syncStatus w)
                        (fileInputValue w))).
    unfold mbind in Hk. rewrite Hk. simpl. rewrite length_app. simpl. lia.
Qed.

(** C9.  Each of the three transport operations returns, whatever the
    network and [btoa] do: it never throws; when anything inside its
    [try] block throws, the result is the sentinel ([false], [false],
    [null]); and one call sends at most one request. *)
Theorem transport_operations_never_throw
    (config : WebDavConfig) (data_links : list LinkItem.t)
    (data_categories : list Category.t) (w : World) :
  ((∃ b w', checkWebDavConnection network btoa config w = (Returned b, w') ∧
            (length (sent w') ≤ S (length (sent w)))%nat) ∧
   (∀ e w1, checkWebDavConnection_try network btoa config w = (Thrown e, w1) →
            (checkWebDavConnection network btoa config w).1 = Returned false)) ∧
  ((∃ b w', uploadBackup network btoa JSON_stringify config
              data_links data_categories w = (Returned b, w') ∧
            (length (sent w') ≤ S (length (sent w)))%nat) ∧
   (∀ e w1, uploadBackup_try network btoa JSON_stringify config
              data_links data_categories w = (Thrown e, w1) →
            (uploadBackup network btoa JSON_stringify config
               data_links data_categories w).1 = Returned false)) ∧
  ((∃ r w', downloadBackup network btoa config w = (Returned r, w') ∧
            (length (sent w') ≤ S (length (sent w)))%nat) ∧
   (∀ e w1, downloadBackup_try network btoa config w = (Thrown e, w1) →
            (downloadBackup network btoa config w).1 = Returned None)).
Proof.
  split; [|split].
  - destruct (tryCatch_returns (checkWebDavConnection_try network btoa config)
                checkWebDavConnection_catch false w) as [(b & w' & Hrun & Hsent) Hthrown].
    { intros e w1. eexists. split; [reflexivity | done]. }
    split; [|exact Hthrown].
    exists b, w'. split; [exact Hrun |]. rewrite Hsent.
    apply encodeAuth_fetch_sends_at_most_one. done.
  - destruct (tryCatch_returns
                (uploadBackup_try network btoa JSON_stringify config
                   data_links data_categories)
                uploadBackup_catch false w) as [(b & w' & Hrun & Hsent) Hthrown].
    { intros e w1. eexists. split; [reflexivity | done]. }
    split; [|exact Hthrown].
    exists b, w'. split; [exact Hrun |]. rewrite Hsent.
    apply encodeAuth_fetch_sends_at_most_one. done.
  - destruct (tryCatch_returns (downloadBackup_try network btoa config)
                downloadBackup_catch None w) as [(b & w' & Hrun & Hsent) Hthrown].
    { intros e w1. eexists. split; [reflexivity | done]. }
    split; [|exact Hthrown].
    exists b, w'. split; [exact Hrun |]. rewrite Hsent.
    apply encodeAuth_fetch_sends_at_most_one.
    intros r w1. js_unfold.
    destruct (negb (ok r)); [done |].
    destruct (body r) as [|data]; [done |]. simpl.
    destruct data as [| | | | |fields]; simpl; try done.
    by destruct (isArray (fields !! "links") && isArray (fields !! "categories")).
Qed.

End TransportProperties.

Section AppProperties.

Variable network : list Request → Request → FetchOutcome.
Variable JSON_stringify : option Z → list LinkItem.t → list Category.t → string.
Variable parseBookmarks : string → Outcome ImportResult.

(** C5.  When the storage endpoint answers 401, [syncToCloud] returns
    [false]; afterwards the token held in memory is empty, the
    persisted key is gone from [localStorage], the authentication
    prompt is open, and the one request of the call is the only one
    sent: nothing is sent again. *)
Theorem syncToCloud_unauthorized
    (newLinks : list LinkItem.t) (newCategories : list Category.t)
    (token : string) (w : World) (response : Response) :
  network (sent w) (storageRequest JSON_stringify newLinks newCategories token)
    = FetchResolved response →
  status response = 401 →
  let run := syncToCloud network JSON_stringify newLinks newCategories token w in
  run.1 = Returned false ∧
  authToken run.2 = "" ∧
  localStorage run.2 !! AUTH_KEY = None ∧
  isAuthOpen run.2 = true ∧
  syncStatus run.2 = SyncError ∧
  sent run.2 = sent w ++ [storageRequest JSON_stringify newLinks newCategories token].
Proof.
  intros Hnet Hstatus run. subst run.
  unfold syncToCloud, storageRequest in *. js_unfold. simpl.
  rewrite Hnet. simpl. rewrite bool_decide_eq_true_2 by done. simpl.
  by rewrite lookup_delete_eq.
Qed.

Lemma syncToCloud_keeps_records newLinks newCategories token (w : World) :
  let w' := (syncToCloud network JSON_stringify newLinks newCategories token w).2 in
  links w' = links w ∧ categories w' = categories w.
Proof.
  unfold syncToCloud. js_unfold. simpl.
  destruct (network _ _) as [|r]; simpl; [done |].
  destruct (bool_decide (status r = 401)); simpl; [done |].
  destruct (negb (ok r)); simpl; done.
Qed.

Lemma updateData_records token newLinks newCategories (w : World) :
  let w' := (updateData network JSON_stringify token newLinks newCategories w).2 in
  links w' = newLinks ∧ categories w' = newCategories.
Proof.
  unfold updateData. js_unfold. simpl.
  destruct (decide (token = "")); simpl; [done |].
  match goal with
  | |- context [syncToCloud _ _ _ _ _ ?w0] =>
      pose proof (syncToCloud_keeps_records newLinks newCategories token w0) as Hkeep;
      destruct (syncToCloud network JSON_stringify newLinks newCategories token w0)
        as [[b|e] w1]
  end; simpl in *; exact Hkeep.
Qed.

(** C6.  After [handleDeleteCategory] the link list is the old one with
    [moveToCommon] applied to every link, unless no token is held, in
    which case the handler only opens the authentication prompt and the
    list is the old one; either way the list has its old length. *)
Theorem handleDeleteCategory_reassigns_links (catId : string) (w : World) :
  let w' := (handleDeleteCategory network JSON_stringify catId w).2 in
  links w' = (if decide (authToken w = "") then links w
              else map (moveToCommon catId) (links w)) ∧
  length (links w') = length (links w).
Proof.
  intros w'.
  assert (Hlinks : links w' = (if decide (authToken w = "") then links w
                               else map (moveToCommon catId) (links w))).
  { subst w'. unfold handleDeleteCategory.
    unfold mbind at 1, Js_bind, getWorld. simpl.
    destruct (decide (authToken w = "")) as [Hno|Hyes].
    - js_unfold. done.
    - match goal with
      | |- context [updateData _ _ ?t ?ls ?cs w] =>
          destruct (updateData_records t ls cs w) as [Hl _]
      end.
      by rewrite Hl. }
  split; [exact Hlinks |]. rewrite Hlinks.
  destruct (decide (authToken w = "")); [done | by rewrite length_map].
Qed.

Lemma mergeCategory_fold_spec (newCats existing : list Category.t) :
  ∃ added,
    fold_left mergeCategory newCats existing = existing ++ added ∧
    sublist added newCats ∧
    Forall (λ nc, Category.name nc ∉ map Category.name existing) added ∧
    Forall (λ nc, Category.name nc ∈
                    map Category.name (fold_left mergeCategory newCats existing))
           newCats.
Proof.
  revert existing. induction newCats as [|nc newCats IH]; intros existing; simpl.
  - exists []. rewrite app_nil_r. by repeat split.
  - destruct (IH (mergeCategory existing nc)) as (added & Heq & Hsub & Hfresh & Hall).
    assert (Hgrow : ∀ cs x, Category.name x ∈ map Category.name cs →
              Category.name x ∈ map Category.name (fold_left mergeCategory newCats cs)).
    { clear. induction newCats as [|y ys IHy]; intros cs x Hx; simpl; [done |].
      apply IHy. unfold mergeCategory.
      destruct (List.find _ cs); [done |].
      rewrite map_app. apply elem_of_app. by left. }
    unfold mergeCategory in *.
    destruct (List.find _ existing) as [c|] eqn:Hfind.
    + exists added. repeat split; try done.
      * by apply sublist_cons.
      * constructor; [|done]. apply Hgrow.
        apply find_some in Hfind as [Hin Hname].
        apply bool_decide_eq_true in Hname. rewrite <- Hname.
        apply list_elem_of_fmap_2. by apply list_elem_of_In.
    + exists (nc :: added). rewrite Heq in Hall |- *.
      rewrite <- app_assoc in Hall |- *. simpl in Hall |- *.
      repeat split; try done.
      * by apply sublist_skip.
      * constructor.
        -- intros (c & Hname & Hin)%list_elem_of_fmap.
           apply list_elem_of_In in Hin.
           eapply find_none in Hfind; [|exact Hin]. simpl in Hfind.
           apply bool_decide_eq_false in Hfind. by apply Hfind.
        -- eapply Forall_impl; [exact Hfresh |]. intros x Hx. simpl in Hx.
           rewrite map_app in Hx. intros Hin. apply Hx, elem_of_app. by left.
      * constructor; [|done].
        rewrite map_app. apply elem_of_app. right. simpl. by left.
Qed.

(** C7.  When a file is given, a token is held and [parseBookmarks]
    returns, [handleImport] leaves the link list as the old list
    followed by all parsed links, and the category list as the old
    list followed by some of the parsed categories, in their order: a
    parsed category is among them only if no old category has exactly
    its name, and every parsed name is the name of a category
    afterwards. *)
Theorem handleImport_merges (file : string) (parsed : ImportResult) (w : World) :
  authToken w ≠ "" →
  parseBookmarks file = Returned parsed →
  let w' := (handleImport network JSON_stringify parseBookmarks (Some file) w).2 in
  links w' = links w ++ imported_links parsed ∧
  ∃ added,
    categories w' = categories w ++ added ∧
    sublist added (imported_categories parsed) ∧
    Forall (λ nc, Category.name nc ∉ map Category.name (categories w)) added ∧
    Forall (λ nc, Category.name nc ∈ map Category.name (categories w'))
           (imported_categories parsed).
Proof.
  intros Htoken Hparse w'.
  destruct (mergeCategory_fold_spec (imported_categories parsed) (categories w))
    as (added & Heq & Hsub & Hfresh & Hall).
  assert (Hrecords : links w' = links w ++ imported_links parsed ∧
            categories w' =
              fold_left mergeCategory (imported_categories parsed) (categories w)).
  { subst w'. unfold handleImport. js_unfold. simpl.
    destruct (decide (authToken w = "")) as [|_]; [done |].
    rewrite Hparse.
    match goal with
    | |- context [updateData _ _ ?t ?ls ?cs w] =>
        destruct (updateData_records t ls cs w) as [Hl Hc];
        destruct (updateData network JSON_stringify t ls cs w) as [[[]|e] w1]
    end; simpl in *; by rewrite Hl, Hc. }
  destruct Hrecords as [Hl Hc]. split; [exact Hl |].
  exists added. rewrite Hc. by rewrite Heq in Hall |- *.
Qed.

End AppProperties.

Example parse_demo :
  readExport
    (generateBookmarkHtml 5000
      [LinkItem.mk "1" "a<b" "http://x?a=1&b=2" (Some "i") None "dev" 1999 None;
       LinkItem.mk "2" "" "u>v" (Some "j") None "zzz" (-1) None;
       LinkItem.mk "3" "x'y" "w" None None "dev" 7 None]
      [Category.mk "dev" "D&D" "Code" None; Category.mk "e" "<H3>" "Code" None]) =
  [ mkFolder "D&D" [("a<b", "http://x?a=1&b=2"); ("x'y", "w")];
    mkFolder "<H3>" [];
    mkFolder uncategorizedLabel [("", "u>v")] ].
Proof. vm_compute. reflexivity. Qed.

(** ** Lemmas on reading *)

#[local] Arguments Ascii.eqb : simpl nomatch.

Section Reading.

Lemma occurs_append (c : ascii) (a b : string) :
  occurs c (a +:+ b) = occurs c a || occurs c b.
Proof.
  induction a as [|x a IH]; [done |].
  rewrite ?append_cons. simpl. by rewrite IH, orb_assoc.
Qed.


Lemma pushString_Tag (t x : string) (rest : list Token) :
  pushString t (Tag x :: rest) = Tag (t +:+ x) :: rest.
Proof. induction t as [|c t IH]; [done |]. simpl. by rewrite IH. Qed.





Lemma quoteState_append (b : bool) (a c : string) :
  quoteState b (a +:+ c) =
  match quoteState b a with
  | Some b' => quoteState b' c
  | None => None
  end.
Proof.
  revert b. induction a as [|x a IH]; intros b; [done |].
  rewrite ?append_cons. simpl.
  destruct b, (Ascii.eqb x dquote), (Ascii.eqb x ">"); by rewrite ?IH.
Qed.

Lemma quoteState_plain (t : string) :
  occurs ">" t = false → occurs dquote t = false → quoteState false t = Some false.
Proof.
  induction t as [|c t IH]; [done |]. simpl.
  intros [Hc1 Ht1]%orb_false_elim [Hc2 Ht2]%orb_false_elim.
  rewrite Hc1, Hc2. by apply IH.
Qed.

Lemma quoteState_value (t : string) :
  occurs dquote t = false → quoteState true (t +:+ q) = Some false.
Proof.
  induction t as [|c t IH]; [done |]. simpl.
  intros [Hc Ht]%orb_false_elim. rewrite ?append_cons. simpl.
  rewrite Hc. by apply IH.
Qed.

(** [ name="value"] leaves the scan outside quotes. *)
Lemma quoteState_attribute (name value : string) :
  occurs ">" name = false → occurs dquote name = false →
  occurs dquote value = false →
  quoteState false (name +:+ q +:+ value +:+ q) = Some false.
Proof.
  intros Hn1 Hn2 Hv. rewrite quoteState_append, (quoteState_plain _ Hn1 Hn2).
  change (q +:+ value +:+ q) with (String dquote (value +:+ q)).
  simpl. by apply quoteState_value.
Qed.




End Reading.

Section ReadingLines.





Lemma decodeFrom_escapeChar (c : ascii) (r : string) :
  decodeFrom 0 (escapeChar c +:+ r) = String c (decodeFrom 0 r).
Proof.
  unfold escapeChar.
  destruct (decide (c = "&"%char)) as [->|H1]; [reflexivity |].
  destruct (decide (c = "<"%char)) as [->|H2]; [reflexivity |].
  destruct (decide (c = ">"%char)) as [->|H3]; [reflexivity |].
  destruct (decide (c = dquote)) as [->|H4]; [reflexivity |].
  destruct (decide (c = squote)) as [->|H5]; [reflexivity |].
  rewrite append_cons, append_nil_l. simpl. unfold entityAt. simpl.
  apply Ascii.eqb_neq in H1. by rewrite H1.
Qed.

(** Decoding undoes escaping. *)
Lemma decodeEntities_escapeHtml (s : string) : decodeEntities (escapeHtml s) = s.
Proof.
  rewrite escapeHtml_escapeEach. unfold decodeEntities.
  induction s as [|c s IH]; [done |].
  simpl. by rewrite decodeFrom_escapeChar, IH.
Qed.


















End ReadingLines.

Section ReadingDocument.










End ReadingDocument.


(** ** The claims at sample inputs *)



Lemma dangling_link_sample :
  (LinkItem.categoryId sampleOrphan ∉ map Category.id sampleCategories) ∧
  (LinkItem.categoryId sampleReact ∈ map Category.id sampleCategories) ∧
  generateBookmarkHtml 5000 sampleLinks sampleCategories =
    fileHeading +:+
    concatMap (categoryFolderText 5 [sampleGitHub; sampleReact]) sampleCategories +:+
    headingText 5 "未分类" +:+ listOpens +:+
    anchorText "https://example.org/?a=1&b=<2>" 1 None
      "Q&amp;A &#039;site&#039;" +:+
    listCloses +:+
    "</DL><p>" ∧
  generateBookmarkHtml 5000 sampleLinks sampleCategories =
    fileHeading +:+
    concatMap (categoryFolderText 5 sampleLinks) sampleCategories +:+
    trailingFolderText 5 [sampleOrphan] +:+
    "</DL><p>".
Proof.
  assert (Hdangling :
    LinkItem.categoryId sampleOrphan ∉ map Category.id sampleCategories).
  { apply (bool_decide_unpack _). vm_compute. exact I. }
  assert (Hvalid :
    LinkItem.categoryId sampleReact ∈ map Category.id sampleCategories).
  { apply (bool_decide_unpack _). vm_compute. exact I. }
  split; [exact Hdangling |]. split; [exact Hvalid |].
  split.
  - exact (proj1 (dangling_link_only_in_uncategorized 5000 [sampleGitHub]
                    [sampleReact] sampleCategories sampleOrphan) Hdangling).
  - exact (proj2 (dangling_link_only_in_uncategorized 5000
                    [sampleGitHub; sampleOrphan] [] sampleCategories sampleReact)
             Hvalid).
Defined.

Lemma empty_category_folder_sample :
  sampleCategories =
    [Category.mk "dev" "Dev & Tools" "Code" None] ++
    Category.mk "read" "<Reading>" "BookOpen" None :: [] ∧
  Forall (λ l, LinkItem.categoryId l ≠ "read") sampleLinks ∧
  generateBookmarkHtml 5000 sampleLinks sampleCategories =
    fileHeading +:+
    categoryFolderText 5 sampleLinks (Category.mk "dev" "Dev & Tools" "Code" None) +:+
    headingText 5 "&lt;Reading&gt;" +:+
    "    <DL><p>" +:+ lineEnd +:+
    "    </DL><p>" +:+ lineEnd +:+
    headingText 5 "未分类" +:+ listOpens +:+
    trailingAnchorText sampleOrphan +:+
    listCloses +:+
    "</DL><p>".
Proof.
  assert (Hnone : Forall (λ l, LinkItem.categoryId l ≠ "read") sampleLinks)
    by (by repeat constructor).
  split; [reflexivity |]. split; [exact Hnone |].
  exact (proj2 (uncategorized_folder_iff_dangling 5000 sampleLinks sampleCategories)
           [Category.mk "dev" "Dev & Tools" "Code" None]
           (Category.mk "read" "<Reading>" "BookOpen" None) [] eq_refl Hnone).
Defined.

Lemma downloadBackup_sample :
  sampleBtoa (cfg_username sampleConfig +:+ ":" +:+ cfg_password sampleConfig)
    = Some "user:secret" ∧
  ok (mkResponse 200 (BodyJson goodBackup)) = true ∧
  (downloadBackup (answeringNetwork (mkResponse 200 (BodyJson goodBackup)))
     sampleBtoa sampleConfig emptyWorld).1 = Returned (Some goodBackup) ∧
  (downloadBackup (answeringNetwork (mkResponse 200 (BodyJson badBackup)))
     sampleBtoa sampleConfig emptyWorld).1 = Returned None.
Proof.
  split; [reflexivity |]. split; [reflexivity |]. split.
  - exact (downloadBackup_validates_arrays
             (answeringNetwork (mkResponse 200 (BodyJson goodBackup))) sampleBtoa
             sampleConfig emptyWorld "user:secret"
             (mkResponse 200 (BodyJson goodBackup)) goodBackup
             eq_refl eq_refl eq_refl eq_refl).
  - exact (downloadBackup_validates_arrays
             (answeringNetwork (mkResponse 200 (BodyJson badBackup))) sampleBtoa
             sampleConfig emptyWorld "user:secret"
             (mkResponse 200 (BodyJson badBackup)) badBackup
             eq_refl eq_refl eq_refl eq_refl).
Defined.

Lemma transport_failure_sample :
  checkWebDavConnection_try rejectingNetwork sampleBtoa sampleConfig emptyWorld =
    (Thrown NetworkError,
     mkWorld [mkRequest "https://dav.example/backup" "PROPFIND"
                [("Authorization", "Basic user:secret"); ("Depth", "0")] None]
       [] [] [] ∅ [] [] "" false Idle "") ∧
  (checkWebDavConnection rejectingNetwork sampleBtoa sampleConfig emptyWorld).1 =
    Returned false ∧
  (uploadBackup rejectingNetwork sampleBtoa sampleStringify sampleConfig
     sampleLinks sampleCategories emptyWorld).1 = Returned false ∧
  (downloadBackup rejectingNetwork sampleBtoa sampleConfig emptyWorld).1 =
    Returned None.
Proof.
  destruct (transport_operations_never_throw rejectingNetwork sampleBtoa
              sampleStringify sampleConfig sampleLinks sampleCategories emptyWorld)
    as [[_ Hcheck] [[_ Hupload] [_ Hdownload]]].
  split; [reflexivity |].
  split; [exact (Hcheck _ _ eq_refl) |].
  split; [exact (Hupload _ _ eq_refl) | exact (Hdownload _ _ eq_refl)].
Defined.

Lemma syncToCloud_unauthorized_sample :
  status (mkResponse 401 BodyNotJson) = 401 ∧
  (let run := syncToCloud (answeringNetwork (mkResponse 401 BodyNotJson))
                sampleStringify sampleLinks sampleCategories "token" signedInWorld in
   run.1 = Returned false ∧
   authToken run.2 = "" ∧
   localStorage run.2 !! AUTH_KEY = None ∧
   isAuthOpen run.2 = true ∧
   syncStatus run.2 = SyncError ∧
   sent run.2 = sent signedInWorld ++
     [storageRequest sampleStringify sampleLinks sampleCategories "token"]).
Proof.
  split; [reflexivity |].
  exact (syncToCloud_unauthorized (answeringNetwork (mkResponse 401 BodyNotJson))
           sampleStringify sampleLinks sampleCategories "token" signedInWorld
           (mkResponse 401 BodyNotJson) eq_refl eq_refl).
Defined.

Lemma handleImport_sample :
  authToken signedInWorld ≠ "" ∧
  (let w' := (handleImport rejectingNetwork sampleStringify sampleParser
                (Some "bookmarks.html") signedInWorld).2 in
   links w' = links signedInWorld ++ imported_links sampleImport ∧
   ∃ added,
     categories w' = categories signedInWorld ++ added ∧
     sublist added (imported_categories sampleImport) ∧
     Forall (λ nc, Category.name nc ∉ map Category.name (categories signedInWorld))
            added ∧
     Forall (λ nc, Category.name nc ∈ map Category.name (categories w'))
            (imported_categories sampleImport)).
Proof.
  assert (Htoken : authToken signedInWorld ≠ "") by discriminate.
  exact (conj Htoken
           (handleImport_merges rejectingNetwork sampleStringify sampleParser
              "bookmarks.html" sampleImport signedInWorld Htoken eq_refl)).
Defined.

Example handleImport_sample_categories :
  categories (handleImport rejectingNetwork sampleStringify sampleParser
                (Some "bookmarks.html") signedInWorld).2 =
  sampleCategories ++ [Category.mk "n2" "News" "Folder" None].
Proof. vm_compute. reflexivity. Qed.

Example handleDeleteCategory_sample :
  links (handleDeleteCategory rejectingNetwork sampleStringify "dev"
           (mkWorld [] [] [] [] ∅ sampleLinks sampleCategories "token" false Idle "")).2 =
  [ LinkItem.mk "1" "GitHub" "https://github.com"
      (Some "https://github.com/favicon.ico") (Some "code hosting") "common"
      1700000000123 (Some true);
    sampleOrphan;
    LinkItem.mk "3" "React" "https://react.dev" None None "common" 0 None ].
Proof. vm_compute. reflexivity. Qed.

(** * Further properties of the code *)

(** ** The export codec *)

Section ExportFacts.

Lemma occurs_escapeChar_markup (c0 c : ascii) :
  c0 = "<"%char ∨ c0 = ">"%char ∨ c0 = dquote ∨ c0 = squote →
  occurs c0 (escapeChar c) = false.
Proof.
  intros Hc0. unfold escapeChar.
  destruct (decide (c = "&"%char)) as [->|H1];
    [by destruct Hc0 as [-> | [-> | [-> | ->]]] |].
  destruct (decide (c = "<"%char)) as [->|H2];
    [by destruct Hc0 as [-> | [-> | [-> | ->]]] |].
  destruct (decide (c = ">"%char)) as [->|H3];
    [by destruct Hc0 as [-> | [-> | [-> | ->]]] |].
  destruct (decide (c = dquote)) as [->|H4];
    [by destruct Hc0 as [-> | [-> | [-> | ->]]] |].
  destruct (decide (c = squote)) as [->|H5];
    [by destruct Hc0 as [-> | [-> | [-> | ->]]] |].
  simpl. rewrite orb_false_r. apply Ascii.eqb_neq.
  by destruct Hc0 as [-> | [-> | [-> | ->]]].
Qed.

Lemma occurs_escapeHtml_markup (c0 : ascii) (s : string) :
  c0 = "<"%char ∨ c0 = ">"%char ∨ c0 = dquote ∨ c0 = squote →
  occurs c0 (escapeHtml s) = false.
Proof.
  intros Hc0. rewrite escapeHtml_escapeEach.
  induction s as [|c s IH]; [done |].
  cbn [escapeEach]. by rewrite occurs_append, occurs_escapeChar_markup, IH.
Qed.

Lemma length_append (a b : string) :
  String.length (a +:+ b) = (String.length a + String.length b)%nat.
Proof.
  induction a as [|x a IH]; [done |].
  rewrite append_cons. cbn [String.length]. by rewrite IH.
Qed.

Lemma escapeChar_length (c : ascii) :
  (1 ≤ String.length (escapeChar c))%nat ∧
  (String.length (escapeChar c) = 1%nat → escapeChar c = String c "").
Proof.
  unfold escapeChar. repeat case_decide; cbn; split; (lia || done).
Qed.

Lemma escapeChar_fixed (c : ascii) :
  escapeChar c = String c "" ↔
  (Ascii.eqb c "&" || Ascii.eqb c "<" || Ascii.eqb c ">" ||
   Ascii.eqb c dquote || Ascii.eqb c squote) = false.
Proof.
  unfold escapeChar. split.
  - intros H. repeat case_decide; subst; try discriminate H.
    repeat (apply orb_false_intro); by apply Ascii.eqb_neq.
  - intros H. repeat (apply orb_false_elim in H as [H ?]).
    repeat case_decide; subst; try done.
Qed.

Lemma escapeEach_length (s : string) :
  (String.length s ≤ String.length (escapeEach s))%nat.
Proof.
  induction s as [|c s IH]; [done |].
  cbn [escapeEach String.length]. rewrite length_append.
  pose proof (escapeChar_length c) as [H _]. lia.
Qed.

Lemma escapeEach_fixed (s : string) :
  escapeEach s = s ↔
  (occurs "&" s || occurs "<" s || occurs ">" s ||
   occurs dquote s || occurs squote s) = false.
Proof.
  induction s as [|c s IH]; [done |].
  cbn [escapeEach occurs]. split.
  - intros H.
    assert (Hlen : String.length (escapeChar c +:+ escapeEach s) =
                   String.length (String c s)) by by rewrite H.
    rewrite length_append in Hlen. cbn [String.length] in Hlen.
    pose proof (escapeChar_length c) as [H1 Hone].
    pose proof (escapeEach_length s) as H2.
    assert (Hc : escapeChar c = String c "") by (apply Hone; lia).
    rewrite Hc in H. rewrite append_cons, append_nil_l in H.
    injection H as H. apply IH in H. apply escapeChar_fixed in Hc.
    repeat (apply orb_false_elim in H as [H ?]).
    repeat (apply orb_false_elim in Hc as [Hc ?]).
    rewrite (Ascii.eqb_sym c "&"), (Ascii.eqb_sym c "<"), (Ascii.eqb_sym c ">"),
      (Ascii.eqb_sym c dquote), (Ascii.eqb_sym c squote) in *.
    by repeat match goal with Heq : _ = false |- _ => rewrite Heq; clear Heq end.
  - intros H.
    assert (Hc : (Ascii.eqb c "&" || Ascii.eqb c "<" || Ascii.eqb c ">" ||
                  Ascii.eqb c dquote || Ascii.eqb c squote) = false).
    { destruct (Ascii.eqb c "&"), (Ascii.eqb c "<"), (Ascii.eqb c ">"),
        (Ascii.eqb c dquote), (Ascii.eqb c squote); simpl in *;
        rewrite ?orb_true_r in H; done. }
    assert (Hs : (occurs "&" s || occurs "<" s || occurs ">" s ||
                  occurs dquote s || occurs squote s) = false).
    { destruct (occurs "&" s), (occurs "<" s), (occurs ">" s),
        (occurs dquote s), (occurs squote s); simpl in *;
        rewrite ?orb_true_r in H; done. }
    apply escapeChar_fixed in Hc. apply IH in Hs. by rewrite Hc, Hs.
Qed.

End ExportFacts.

(** X1.  The text that [escapeHtml] returns holds no [<], no [>], no
    double quote and no single quote, whatever it is given. *)
Theorem escapeHtml_has_no_markup (unsafe : string) :
  occurs "<" (escapeHtml unsafe) = false ∧
  occurs ">" (escapeHtml unsafe) = false ∧
  occurs dquote (escapeHtml unsafe) = false ∧
  occurs squote (escapeHtml unsafe) = false.
Proof. repeat split; apply occurs_escapeHtml_markup; tauto. Qed.

(** X2.  [escapeHtml] loses nothing: two texts with the same escaped
    form are the same text. *)
Theorem escapeHtml_injective (a b : string) :
  escapeHtml a = escapeHtml b → a = b.
Proof.
  intros H. rewrite <- (decodeEntities_escapeHtml a), H.
  apply decodeEntities_escapeHtml.
Qed.

(** X3.  [escapeHtml] never shortens a text, and it returns the text
    unchanged exactly when none of [&], [<], [>], the double quote and
    the single quote occurs in it. *)
Theorem escapeHtml_unchanged_iff_plain (unsafe : string) :
  (String.length unsafe ≤ String.length (escapeHtml unsafe))%nat ∧
  bool_decide (escapeHtml unsafe = unsafe) =
    negb (occurs "&" unsafe || occurs "<" unsafe || occurs ">" unsafe ||
          occurs dquote unsafe || occurs squote unsafe).
Proof.
  rewrite escapeHtml_escapeEach. split; [apply escapeEach_length |].
  pose proof (escapeEach_fixed unsafe) as Hfixed.
  destruct (occurs "&" unsafe || occurs "<" unsafe || occurs ">" unsafe ||
            occurs dquote unsafe || occurs squote unsafe).
  - apply bool_decide_eq_false. intros H. by apply Hfixed in H.
  - apply bool_decide_eq_true. by apply Hfixed.
Qed.

Section ExportLists.

Lemma filter_disjoint_union (P Q : LinkItem.t → Prop)
    `{!∀ x, Decision (P x)} `{!∀ x, Decision (Q x)} (ls : list LinkItem.t) :
  (∀ x, P x → Q x → False) →
  filter (λ x, P x ∨ Q x) ls ≡ₚ filter P ls ++ filter Q ls.
Proof.
  intros Hdisjoint. induction ls as [|x ls IH]; [done |].
  rewrite !filter_cons.
  destruct (decide (P x)) as [HP|HP], (decide (Q x)) as [HQ|HQ].
  - by destruct (Hdisjoint x).
  - rewrite decide_True by tauto. simpl. by rewrite IH.
  - rewrite decide_True by tauto. rewrite IH. by rewrite Permutation_middle.
  - rewrite decide_False by tauto. done.
Qed.

Lemma category_links_filter (links : list LinkItem.t) (categories : list Category.t) :
  NoDup (map Category.id categories) →
  flat_map (fun cat => linksOf links (Category.id cat)) categories ≡ₚ
  filter (λ l, LinkItem.categoryId l ∈ map Category.id categories) links.
Proof.
  induction categories as [|cat categories IH]; intros Hids.
  - cbn [flat_map map]. induction links as [|l links IHl]; [done |].
    rewrite filter_cons_False; [done | by intros ?%elem_of_nil].
  - cbn [flat_map map] in *. apply NoDup_cons in Hids as [Hfresh Hids].
    rewrite IH by done. unfold linksOf.
    rewrite <- filter_disjoint_union.
    + assert (Heq : filter (λ l, LinkItem.categoryId l = Category.id cat ∨
                                 LinkItem.categoryId l ∈ map Category.id categories)
                      links =
                    filter (λ l, LinkItem.categoryId l ∈
                                 Category.id cat :: map Category.id categories)
                      links).
      { apply list_filter_iff. intros l. rewrite elem_of_cons. tauto. }
      by rewrite Heq.
    + intros l Heq Hin. apply Hfresh. by rewrite <- Heq.
Qed.

Lemma Forall2_sameAnchor_filter (P : LinkItem.t → Prop) `{!∀ l, Decision (P l)}
    (ls ls' : list LinkItem.t) :
  (∀ l l', sameAnchor l l' → P l ↔ P l') →
  Forall2 sameAnchor ls ls' →
  Forall2 sameAnchor (filter P ls) (filter P ls').
Proof.
  intros HP. induction 1 as [|l l' ls ls' Hl _ IH]; [constructor |].
  rewrite !filter_cons. pose proof (HP l l' Hl) as Hiff.
  destruct (decide (P l)), (decide (P l')); try tauto. by constructor.
Qed.

Lemma concatMap_sameAnchor (anchor : LinkItem.t → string) (ls ls' : list LinkItem.t) :
  (∀ l l', sameAnchor l l' → anchor l = anchor l') →
  Forall2 sameAnchor ls ls' → concatMap anchor ls = concatMap anchor ls'.
Proof.
  intros Hanchor. induction 1 as [|l l' ls ls' Hl _ IH]; [done |].
  cbn [concatMap]. by rewrite (Hanchor l l' Hl), IH.
Qed.

Lemma categoryAnchor_sameAnchor (l l' : LinkItem.t) :
  sameAnchor l l' → categoryAnchor l = categoryAnchor l'.
Proof.
  intros (Ht & Hu & Hi & Hc & Hd). unfold categoryAnchor, iconAttr.
  by rewrite Ht, Hu, Hi, Hd.
Qed.

Lemma uncategorizedAnchor_sameAnchor (l l' : LinkItem.t) :
  sameAnchor l l' → uncategorizedAnchor l = uncategorizedAnchor l'.
Proof.
  intros (Ht & Hu & Hi & Hc & Hd). unfold uncategorizedAnchor.
  by rewrite Ht, Hu, Hd.
Qed.

End ExportLists.

(** X4.  When the categories have pairwise different identifiers, the
    lists of links that the two loops of [generateBookmarkHtml] write
    (for each category the list kept under its identifier in
    [linksByCat], then [uncategorized]) together hold every input link
    exactly as often as the input does. *)
Theorem every_link_written_once
    (links : list LinkItem.t) (categories : list Category.t) :
  NoDup (map Category.id categories) →
  flat_map (fun cat => default [] (linksByCat links !! Category.id cat)) categories
    ++ uncategorized links categories ≡ₚ links.
Proof.
  intros Hids.
  assert (Hget : flat_map (fun cat => default [] (linksByCat links !! Category.id cat))
                   categories =
                 flat_map (fun cat => linksOf links (Category.id cat)) categories).
  { clear Hids. induction categories as [|cat categories IH]; [done |].
    cbn [flat_map]. by rewrite linksByCat_get, IH. }
  rewrite Hget, category_links_filter by done.
  unfold uncategorized.
  rewrite <- (filter_app_complement
                (λ l, LinkItem.categoryId l ∈ map Category.id categories) links) at 3.
  apply Permutation_app; [done |].
  assert (Heq : filter (λ l, LinkItem.categoryId l ∉ validCatIds categories) links =
                filter (λ l, ¬ LinkItem.categoryId l ∈ map Category.id categories)
                       links).
  { apply list_filter_iff. intros l. by rewrite elem_of_validCatIds. }
  by rewrite Heq.
Qed.

(** X5.  The generated document depends on nothing but the title, URL,
    icon reference, category identifier and creation time in whole
    seconds of each link, and the identifier and name of each category:
    two inputs that agree on these give the same document. *)
Theorem export_ignores_other_fields (dateNow : Z)
    (links links' : list LinkItem.t) (categories categories' : list Category.t) :
  Forall2 sameAnchor links links' →
  Forall2 sameFolder categories categories' →
  generateBookmarkHtml dateNow links categories =
  generateBookmarkHtml dateNow links' categories'.
Proof.
  intros Hlinks Hcats. rewrite !generateBookmarkHtml_layout. unfold bookmarkLayout.
  assert (Hids : map Category.id categories = map Category.id categories').
  { induction Hcats as [|c c' cs cs' [Hid _] _ IH]; [done |].
    cbn [map]. by rewrite Hid, IH. }
  f_equal. f_equal; [|f_equal].
  - clear Hids. induction Hcats as [|c c' cs cs' [Hid Hname] _ IH]; [done |].
    cbn [concatMap]. rewrite IH. f_equal. unfold categoryFolder.
    rewrite Hname, Hid. do 2 f_equal. f_equal.
    apply concatMap_sameAnchor; [apply categoryAnchor_sameAnchor |].
    apply Forall2_sameAnchor_filter; [|done].
    intros l l' (_ & _ & _ & Hc & _). by rewrite Hc.
  - assert (Huncat : Forall2 sameAnchor (uncategorized links categories)
                       (uncategorized links' categories')).
    { unfold uncategorized, validCatIds. rewrite <- Hids.
      apply Forall2_sameAnchor_filter; [|done].
      intros l l' (_ & _ & _ & Hc & _). by rewrite Hc. }
    unfold uncategorizedFolder.
    destruct Huncat as [|u u' us us' Hu Hus]; [done |].
    do 2 f_equal. f_equal.
    apply concatMap_sameAnchor; [apply uncategorizedAnchor_sameAnchor |].
    by constructor.
Qed.

(** ** The WebDAV transport *)

Section TransportFacts.

Variable network : list Request → Request → FetchOutcome.
Variable btoa : string → option string.
Variable JSON_stringify : option Z → list LinkItem.t → list Category.t → string.

Lemma endsWith_refl (t : string) : endsWith t t = true.
Proof. destruct t; simpl; [done | by case_decide]. Qed.

Lemma endsWith_append (p t : string) : endsWith (p +:+ t) t = true.
Proof.
  induction p as [|c p IH]; [apply endsWith_refl |].
  rewrite append_cons. simpl. by case_decide.
Qed.

Lemma endsWith_elim (s t : string) : endsWith s t = true → ∃ p, s = p +:+ t.
Proof.
  induction s as [|c s IH]; simpl.
  - case_decide; [|done]. subst. by exists "".
  - case_decide as Heq; [subst t; by exists "" |].
    intros [p ->]%IH. by exists (String c p).
Qed.

Lemma ok_absorbs_created (r : Response) :
  ok r || bool_decide (status r = 201) || bool_decide (status r = 204) = ok r.
Proof.
  unfold ok. repeat case_bool_decide; try done; lia.
Qed.

(** X6.  The address of the backup file always ends with
    [/cloudnav_backup.json]: it is the configured address followed by
    the file name, with a slash put between them exactly when the
    configured address does not end with one (so also when it is
    empty). *)
Theorem backupUrl_shape (config : WebDavConfig) :
  ∃ base,
    backupUrl config = base +:+ "/cloudnav_backup.json" ∧
    (cfg_url config = base +:+ "/" ∨
     (cfg_url config = base ∧ endsWith base "/" = false)).
Proof.
  unfold backupUrl. destruct (endsWith (cfg_url config) "/") eqn:Hends.
  - apply endsWith_elim in Hends as [p Hp]. exists p. rewrite Hp. split; [|by left].
    by rewrite append_assoc.
  - exists (cfg_url config). split; [done | by right].
Qed.

(** X7.  [checkWebDavConnection] answers [true] exactly when the
    credentials can be encoded and the server answers the request with
    status 207 or 200; it sends one [PROPFIND] request with depth 0 to
    the configured address, and none when the credentials cannot be
    encoded. *)
Theorem checkWebDavConnection_result (config : WebDavConfig) (w : World) :
  let credentials := cfg_username config +:+ ":" +:+ cfg_password config in
  let request auth :=
    mkRequest (cfg_url config) "PROPFIND"
      [("Authorization", "Basic " +:+ auth); ("Depth", "0")] None in
  let run := checkWebDavConnection network btoa config w in
  run.1 = Returned
            match btoa credentials with
            | None => false
            | Some auth =>
                match network (sent w) (request auth) with
                | FetchRejected => false
                | FetchResolved r => bool_decide (status r = 207 ∨ status r = 200)
                end
            end ∧
  sent run.2 = sent w ++ match btoa credentials with
                         | None => []
                         | Some auth => [request auth]
                         end.
Proof.
  intros credentials request run. subst credentials request run.
  unfold checkWebDavConnection, checkWebDavConnection_try,
    checkWebDavConnection_catch. js_unfold.
  destruct (btoa _) as [auth|]; simpl; [|by rewrite app_nil_r].
  destruct (network _ _) as [|r]; simpl; [done |].
  split; [|done]. f_equal. repeat case_bool_decide; try done; tauto.
Qed.

(** X8.  [uploadBackup] answers [true] exactly when the credentials can
    be encoded and the server answers the [PUT] with a status from 200
    to 299; accepting 201 and 204 besides adds nothing. *)
Theorem uploadBackup_result (config : WebDavConfig)
    (data_links : list LinkItem.t) (data_categories : list Category.t) (w : World) :
  let credentials := cfg_username config +:+ ":" +:+ cfg_password config in
  let request auth :=
    mkRequest (backupUrl config) "PUT"
      [("Authorization", "Basic " +:+ auth); ("Content-Type", "application/json")]
      (Some (JSON_stringify (Some 2) data_links data_categories)) in
  (uploadBackup network btoa JSON_stringify config data_links data_categories w).1 =
  Returned
    match btoa credentials with
    | None => false
    | Some auth =>
        match network (sent w) (request auth) with
        | FetchRejected => false
        | FetchResolved r => bool_decide (200 ≤ status r ≤ 299)
        end
    end.
Proof.
  intros credentials request. subst credentials request.
  unfold uploadBackup, uploadBackup_try, uploadBackup_catch. js_unfold.
  destruct (btoa _) as [auth|]; simpl; [|done].
  destruct (network _ _) as [|r]; simpl; [done |].
  by rewrite ok_absorbs_created.
Qed.

(** X9.  [downloadBackup] hands back a document only when the request
    was answered with a success status and a JSON body whose [links]
    and [categories] are arrays, and then the document is that body; a
    refused connection, any other status, a body that is not JSON and
    credentials that cannot be encoded all give [null]. *)
Theorem downloadBackup_result (config : WebDavConfig) (w : World) :
  let credentials := cfg_username config +:+ ":" +:+ cfg_password config in
  let request auth :=
    mkRequest (backupUrl config) "GET" [("Authorization", "Basic " +:+ auth)] None in
  (downloadBackup network btoa config w).1 =
  Returned
    match btoa credentials with
    | None => None
    | Some auth =>
        match network (sent w) (request auth) with
        | FetchRejected => None
        | FetchResolved r =>
            if ok r then
              match body r with
              | BodyNotJson => None
              | BodyJson data => if fieldsAreArrays data then Some data else None
              end
            else None
        end
    end.
Proof.
  intros credentials request. subst credentials request.
  unfold downloadBackup, downloadBackup_try, downloadBackup_catch. js_unfold.
  destruct (btoa _) as [auth|]; simpl; [|done].
  destruct (network _ _) as [|r]; simpl; [done |].
  destruct (ok r); simpl; [|done].
  destruct (body r) as [|data]; simpl; [done |].
  destruct data as [| | | | |fields]; simpl; try done.
  by destruct (isArray (fields !! "links") && isArray (fields !! "categories")).
Qed.

(** X10.  Credentials that [btoa] cannot encode never reach the network:
    each of the three operations then sends nothing, writes one line to
    the console and returns its failure value. *)
Theorem unencodable_credentials_send_nothing (config : WebDavConfig)
    (data_links : list LinkItem.t) (data_categories : list Category.t) (w : World) :
  btoa (cfg_username config +:+ ":" +:+ cfg_password config) = None →
  let check := checkWebDavConnection network btoa config w in
  let upload := uploadBackup network btoa JSON_stringify config
                  data_links data_categories w in
  let download := downloadBackup network btoa config w in
  (check.1 = Returned false ∧ sent check.2 = sent w ∧
   length (console check.2) = S (length (console w))) ∧
  (upload.1 = Returned false ∧ sent upload.2 = sent w ∧
   length (console upload.2) = S (length (console w))) ∧
  (download.1 = Returned None ∧ sent download.2 = sent w ∧
   length (console download.2) = S (length (console w))).
Proof.
  intros Hbtoa check upload download. subst check upload download.
  unfold checkWebDavConnection, checkWebDavConnection_try,
    checkWebDavConnection_catch, uploadBackup, uploadBackup_try, uploadBackup_catch,
    downloadBackup, downloadBackup_try, downloadBackup_catch.
  js_unfold. rewrite Hbtoa. simpl. rewrite !length_app. simpl.
  repeat split; lia.
Qed.

End TransportFacts.

(** ** [App]: synchronisation, sign-in and the handlers *)

Section AppFacts.

Variable network : list Request → Request → FetchOutcome.
Variable JSON_stringify : option Z → list LinkItem.t → list Category.t → string.
Variable parseBookmarks : string → Outcome ImportResult.

(** X11.  [syncToCloud] never throws and answers [true] exactly when the
    request is answered with a success status.  The token held in
    memory is dropped on status 401 and kept in every other case, and
    the status shown ends as saved or as error accordingly. *)
Theorem syncToCloud_result (newLinks : list LinkItem.t)
    (newCategories : list Category.t) (token : string) (w : World) :
  let run := syncToCloud network JSON_stringify newLinks newCategories token w in
  let answer := network (sent w)
                  (storageRequest JSON_stringify newLinks newCategories token) in
  run.1 = Returned match answer with
                   | FetchRejected => false
                   | FetchResolved r => ok r
                   end ∧
  authToken run.2 = match answer with
                    | FetchRejected => authToken w
                    | FetchResolved r =>
                        if bool_decide (status r = 401) then "" else authToken w
                    end ∧
  syncStatus run.2 = match answer with
                     | FetchRejected => SyncError
                     | FetchResolved r => if ok r then Saved else SyncError
                     end.
Proof.
  intros run answer. subst run answer.
  unfold syncToCloud, storageRequest. js_unfold. simpl.
  destruct (network _ _) as [|r]; simpl; [done |].
  case_bool_decide as H401; simpl.
  - unfold ok. rewrite H401. by rewrite bool_decide_eq_false_2 by lia.
  - destruct (ok r); simpl; done.
Qed.

Lemma syncToCloud_frame newLinks newCategories token (w : World) :
  let w' := (syncToCloud network JSON_stringify newLinks newCategories token w).2 in
  links w' = links w ∧ categories w' = categories w ∧
  localStorage w' !! LOCAL_STORAGE_KEY = localStorage w !! LOCAL_STORAGE_KEY ∧
  (tokenPersisted w → tokenPersisted w') ∧
  sent w' = sent w ++ [storageRequest JSON_stringify newLinks newCategories token].
Proof.
  unfold syncToCloud, storageRequest, tokenPersisted. js_unfold. simpl.
  destruct (network _ _) as [|r]; simpl; [done |].
  destruct (bool_decide (status r = 401)); simpl.
  - rewrite lookup_delete_ne by done. rewrite lookup_delete_eq. done.
  - destruct (negb (ok r)); simpl; done.
Qed.

Lemma updateData_frame token newLinks newCategories (w : World) :
  let w' := (updateData network JSON_stringify token newLinks newCategories w).2 in
  links w' = newLinks ∧ categories w' = newCategories ∧
  cacheMirrorsState JSON_stringify w' ∧
  (tokenPersisted w → tokenPersisted w') ∧
  sent w' = sent w ++
    (if decide (token = "") then []
     else [storageRequest JSON_stringify newLinks newCategories token]).
Proof.
  unfold updateData, cacheMirrorsState. js_unfold. simpl.
  destruct (decide (token = "")); simpl.
  - rewrite lookup_insert_eq, app_nil_r. unfold tokenPersisted. simpl.
    by rewrite lookup_insert_ne.
  - match goal with
    | |- context [syncToCloud _ _ _ _ _ ?w0] =>
        pose proof (syncToCloud_frame newLinks newCategories token w0)
          as (Hl & Hc & Hcache & Htoken & Hsent);
        destruct (syncToCloud network JSON_stringify newLinks newCategories token w0)
          as [[b|e] w1]
    end; simpl in *; rewrite Hl, Hc, Hcache, Hsent, lookup_insert_eq;
      (repeat split; try done); intros Hw; apply Htoken;
      unfold tokenPersisted in *; simpl; by rewrite lookup_insert_ne.
Qed.

Lemma updateData_returns token newLinks newCategories (w : World) :
  (updateData network JSON_stringify token newLinks newCategories w).1 = Returned ().
Proof.
  unfold updateData, syncToCloud. js_unfold. simpl.
  destruct (decide (token = "")); simpl; [done |].
  destruct (network _ _) as [|r]; simpl; [done |].
  destruct (bool_decide (status r = 401)); simpl; [done |].
  destruct (negb (ok r)); simpl; done.
Qed.

Lemma perform_cases (a : Action) (w : World) :
  actionEffect network JSON_stringify a w
    (perform network JSON_stringify parseBookmarks w a).
Proof.
  assert (Hunchanged : ∀ w' : World,
    links w' = links w → categories w' = categories w →
    localStorage w' = localStorage w → authToken w' = authToken w →
    sent w' = sent w → actionEffect network JSON_stringify a w w').
  { intros w' ? ? ? ? ?. left. split; [done | by left]. }
  assert (Hupdate : ∀ ls cs (w' : World),
    authToken w ≠ "" → (∀ p, a ≠ Login p) →
    unchangedData (updateData network JSON_stringify (authToken w) ls cs w).2 w' →
    sent w' = sent (updateData network JSON_stringify (authToken w) ls cs w).2 →
    actionEffect network JSON_stringify a w w').
  { intros ls cs w' Htoken Hnot Hsame Hsent. right; left.
    exists ls, cs, (updateData network JSON_stringify (authToken w) ls cs w).2.
    repeat split; try done; apply Hsame. }
  destruct a as [file|catId|d1 d2 data|id confirmed|id|newCats|password]; simpl.
  - unfold handleImport. js_unfold. simpl.
    destruct file as [file|]; [|by apply Hunchanged].
    destruct (decide (authToken w = "")) as [Hno|Hyes]; [by apply Hunchanged |].
    destruct (parseBookmarks file) as [parsed|e]; simpl; [|by apply Hunchanged].
    match goal with
    | |- context [updateData _ _ ?t ?ls ?cs w] =>
        pose proof (updateData_returns t ls cs w) as Hret;
        pose proof (Hupdate ls cs) as Hu;
        destruct (updateData network JSON_stringify t ls cs w) as [[[]|e] w2]
    end; simpl in *; [|done].
    by apply Hu.
  - unfold handleDeleteCategory. js_unfold. simpl.
    destruct (decide (authToken w = "")) as [Hno|Hyes]; [by apply Hunchanged |].
    by eapply Hupdate.
  - unfold handleAddLink. js_unfold. simpl.
    destruct (decide (authToken w = "")) as [Hno|Hyes]; [by apply Hunchanged |].
    by eapply Hupdate.
  - unfold handleDeleteLink. js_unfold. simpl.
    destruct (decide (authToken w = "")) as [Hno|Hyes]; [by apply Hunchanged |].
    destruct confirmed; [|by apply Hunchanged].
    by eapply Hupdate.
  - unfold togglePin. js_unfold. simpl.
    destruct (decide (authToken w = "")) as [Hno|Hyes]; [by apply Hunchanged |].
    by eapply Hupdate.
  - unfold handleUpdateCategories. js_unfold. simpl.
    destruct (decide (authToken w = "")) as [Hno|Hyes]; [by apply Hunchanged |].
    by eapply Hupdate.
  - unfold handleLogin, storageRequest. js_unfold. simpl.
    destruct (network _ _) as [|r]; simpl.
    + left. split; [done |]. right. by exists password.
    + destruct (ok r); simpl.
      * right; right. by exists password.
      * left. split; [done |]. right. by exists password.
Qed.

Lemma perform_keeps_cache (a : Action) (w : World) :
  cacheMirrorsState JSON_stringify w →
  cacheMirrorsState JSON_stringify (perform network JSON_stringify parseBookmarks w a).
Proof.
  intros Hcache. unfold cacheMirrorsState in *.
  destruct (perform_cases a w)
    as [[(Hl & Hc & Hs & _) _] | [(ls & cs & w2 & _ & _ & -> & Hsame & _) | Hlogin]].
  - by rewrite Hl, Hc, Hs.
  - destruct Hsame as (Hl & Hc & Hs & _).
    destruct (updateData_frame (authToken w) ls cs w) as (_ & _ & Hmirror & _).
    unfold cacheMirrorsState in Hmirror. by rewrite Hl, Hc, Hs.
  - destruct Hlogin as (p & _ & Hl & Hc & Hs & _).
    rewrite Hl, Hc, Hs. by rewrite lookup_insert_ne.
Qed.

Lemma perform_keeps_token (a : Action) (w : World) :
  tokenPersisted w →
  tokenPersisted (perform network JSON_stringify parseBookmarks w a).
Proof.
  intros Htoken. unfold tokenPersisted in *.
  destruct (perform_cases a w)
    as [[(_ & _ & Hs & Ht) _] | [(ls & cs & w2 & _ & _ & -> & Hsame & _) | Hlogin]].
  - by rewrite Hs, Ht.
  - destruct Hsame as (_ & _ & Hs & Ht).
    destruct (updateData_frame (authToken w) ls cs w) as (_ & _ & _ & Hkeep & _).
    rewrite Hs, Ht. by apply Hkeep.
  - destruct Hlogin as (p & _ & _ & _ & Hs & Ht & _).
    rewrite Hs, Ht. by rewrite lookup_insert_eq.
Qed.

(** X12.  Whatever the user does, in any order, the copy of the links
    and categories kept in [localStorage] stays the current one: if it
    mirrors the state before a sequence of actions, it mirrors the state
    after it. *)
Theorem local_cache_mirrors_state (actions : list Action) (w : World) :
  cacheMirrorsState JSON_stringify w →
  cacheMirrorsState JSON_stringify
    (fold_left (perform network JSON_stringify parseBookmarks) actions w).
Proof.
  revert w. induction actions as [|a actions IH]; intros w Hw; [done |].
  simpl. by apply IH, perform_keeps_cache.
Qed.

(** X13.  Whatever the user does, the token held in memory stays the
    one persisted under [AUTH_KEY] (or empty when none is persisted):
    signing in stores both, a 401 answer drops both, and nothing else
    touches either. *)
Theorem token_stays_persisted (actions : list Action) (w : World) :
  tokenPersisted w →
  tokenPersisted (fold_left (perform network JSON_stringify parseBookmarks) actions w).
Proof.
  revert w. induction actions as [|a actions IH]; intros w Hw; [done |].
  simpl. by apply IH, perform_keeps_token.
Qed.

(** X14.  Without a token, none of the six handlers that edit the
    record set ([handleImport], [handleAddLink], [handleDeleteLink],
    [togglePin], [handleUpdateCategories], [handleDeleteCategory])
    changes anything that is stored or sent: links, categories,
    [localStorage] and the list of requests are what they were.  (The
    handlers of [App] that are not among the actions, such as
    [handleRestoreBackup], test no token and are not spoken of.) *)
Theorem guarded_handlers_change_nothing_signed_out (a : Action) (w : World) :
  authToken w = "" →
  (∀ password, a ≠ Login password) →
  let w' := perform network JSON_stringify parseBookmarks w a in
  links w' = links w ∧ categories w' = categories w ∧
  localStorage w' = localStorage w ∧ sent w' = sent w.
Proof.
  intros Hno Hnot w'. subst w'.
  destruct (perform_cases a w)
    as [[(Hl & Hc & Hs & _) [Hsent | (p & -> & _)]]
       | [(ls & cs & w2 & Hyes & _) | (p & -> & _)]];
    try done; by destruct (Hnot p).
Qed.

(** X15.  One call of one of the seven handlers modelled as actions
    ([handleImport], [handleDeleteCategory], [handleAddLink],
    [handleDeleteLink], [togglePin], [handleUpdateCategories],
    [handleLogin]) sends at most one request, and a request sent is a
    [POST] to [/api/storage] carrying a token or password: none of them
    sends a second time, whatever the answer.  (The WebDAV actions of
    [BackupModal] are not among the actions.) *)
Theorem handler_sends_at_most_one_request (a : Action) (w : World) :
  let w' := perform network JSON_stringify parseBookmarks w a in
  sent w' = sent w ∨
  ∃ ls cs secret, sent w' = sent w ++ [storageRequest JSON_stringify ls cs secret].
Proof.
  intros w'. subst w'.
  destruct (perform_cases a w)
    as [[_ [Hsent | (p & _ & Hsent)]]
       | [(ls & cs & w2 & _ & _ & -> & _ & Hsent) | (p & _ & _ & _ & _ & _ & Hsent)]].
  - by left.
  - right. by exists (links w), (categories w), p.
  - destruct (updateData_frame (authToken w) ls cs w) as (_ & _ & _ & _ & Hsent2).
    rewrite Hsent, Hsent2. case_decide.
    + left. by rewrite app_nil_r.
    + right. by exists ls, cs, (authToken w).
  - right. by exists (links w), (categories w), p.
Qed.

(** X16.  [handleLogin] never throws and answers [true] exactly when the
    server answers with a success status.  It always sends the current
    links and categories with the password; only when accepted does it
    keep the password as the token, persist it and close the prompt,
    and otherwise it leaves them as they were. *)
Theorem handleLogin_result (password : string) (w : World) :
  let run := handleLogin network JSON_stringify password w in
  let accepted :=
    match network (sent w)
            (storageRequest JSON_stringify (links w) (categories w) password) with
    | FetchRejected => false
    | FetchResolved r => ok r
    end in
  run.1 = Returned accepted ∧
  authToken run.2 = (if accepted then password else authToken w) ∧
  localStorage run.2 =
    (if accepted then <[AUTH_KEY := password]> (localStorage w) else localStorage w) ∧
  isAuthOpen run.2 = (if accepted then false else isAuthOpen w) ∧
  links run.2 = links w ∧ categories run.2 = categories w ∧
  sent run.2 = sent w ++
    [storageRequest JSON_stringify (links w) (categories w) password].
Proof.
  intros run accepted. subst run accepted.
  unfold handleLogin, storageRequest. js_unfold. simpl.
  destruct (network _ _) as [|r]; simpl; [done |].
  destruct (ok r); simpl; done.
Qed.

End AppFacts.

Section HandlerFacts.

Variable network : list Request → Request → FetchOutcome.
Variable JSON_stringify : option Z → list LinkItem.t → list Category.t → string.
Variable parseBookmarks : string → Outcome ImportResult.

(** X17.  With a token held, [handleDeleteCategory] never leaves the
    category list empty (the first default category is put back when
    the last one goes), and after deleting a category other than
    ['common'] no category and no link carries its identifier. *)
Theorem handleDeleteCategory_leaves_no_reference (catId : string) (w : World) :
  authToken w ≠ "" →
  let w' := (handleDeleteCategory network JSON_stringify catId w).2 in
  categories w' ≠ [] ∧
  (catId ≠ "common" →
   Forall (λ c, Category.id c ≠ catId) (categories w') ∧
   Forall (λ l, LinkItem.categoryId l ≠ catId) (links w')).
Proof.
  intros Htoken w'.
  assert (Hstate :
    links w' = map (moveToCommon catId) (links w) ∧
    categories w' =
      (if decide (length (filter (λ c, Category.id c ≠ catId) (categories w)) = 0%nat)
       then filter (λ c, Category.id c ≠ catId) (categories w) ++
            take 1 DEFAULT_CATEGORIES
       else filter (λ c, Category.id c ≠ catId) (categories w))).
  { subst w'. unfold handleDeleteCategory. js_unfold. simpl.
    rewrite decide_False by done.
    match goal with
    | |- context [updateData _ _ ?t ?ls ?cs w] =>
        destruct (updateData_frame network JSON_stringify t ls cs w) as (Hl & Hc & _)
    end.
    by rewrite Hl, Hc. }
  destruct Hstate as [Hl Hc]. rewrite Hl, Hc. clear Hl Hc. split.
  - case_decide as Hlen; [by destruct (filter _ _) |].
    intros Hnil. by rewrite Hnil in Hlen.
  - intros Hcommon. split.
    + case_decide as Hlen.
      * apply length_zero_iff_nil in Hlen. rewrite Hlen. simpl.
        constructor; [|done]. simpl. congruence.
      * apply Forall_forall. by intros c [Hc _]%list_elem_of_filter.
    + apply Forall_forall. intros l (l0 & -> & _)%list_elem_of_fmap.
      unfold moveToCommon. case_decide; simpl; congruence.
Qed.

(** X18.  When [handleImport] cannot import, nothing is lost and
    nothing is sent.  Without a file the state is untouched.  Without a
    token the prompt opens and the file input is cleared.  When
    [parseBookmarks] throws, one alert is shown and the file input is
    cleared.  In the last two cases links, categories, [localStorage]
    and the list of requests are what they were. *)
Theorem handleImport_failures_change_nothing (file : option string) (w : World) :
  let w' := (handleImport network JSON_stringify parseBookmarks file w).2 in
  (file = None → w' = w) ∧
  (is_Some file → authToken w = "" →
   links w' = links w ∧ categories w' = categories w ∧
   localStorage w' = localStorage w ∧ sent w' = sent w ∧
   isAuthOpen w' = true ∧ fileInputValue w' = "") ∧
  (∀ f e, file = Some f → authToken w ≠ "" → parseBookmarks f = Thrown e →
   links w' = links w ∧ categories w' = categories w ∧
   localStorage w' = localStorage w ∧ sent w' = sent w ∧
   length (alerts w') = S (length (alerts w)) ∧ fileInputValue w' = "").
Proof.
  intros w'. subst w'. unfold handleImport. js_unfold. simpl.
  split; [by intros -> |]. split.
  - intros [f ->] Hno. by rewrite decide_True by done.
  - intros f e -> Hyes Hthrown. rewrite decide_False by done. rewrite Hthrown.
    simpl. rewrite length_app. simpl. repeat split; try done. lia.
Qed.

Lemma mergeCategory_known (cs : list Category.t) (nc : Category.t) :
  Category.name nc ∈ map Category.name cs → mergeCategory cs nc = cs.
Proof.
  intros (c & Hname & Hc)%list_elem_of_fmap. unfold mergeCategory.
  destruct (List.find _ cs) eqn:Hfind; [done |].
  apply list_elem_of_In in Hc. eapply find_none in Hfind; [|exact Hc].
  simpl in Hfind. apply bool_decide_eq_false in Hfind. by destruct Hfind.
Qed.

Lemma mergeCategory_fold_known (newCats cs : list Category.t) :
  Forall (λ nc, Category.name nc ∈ map Category.name cs) newCats →
  fold_left mergeCategory newCats cs = cs.
Proof.
  induction 1 as [|nc newCats Hnc _ IH]; [done |].
  simpl. by rewrite mergeCategory_known.
Qed.

Lemma mergeCategory_NoDup (cs : list Category.t) (nc : Category.t) :
  NoDup (map Category.name cs) → NoDup (map Category.name (mergeCategory cs nc)).
Proof.
  intros Hcs. unfold mergeCategory.
  destruct (List.find _ cs) eqn:Hfind; [done |].
  rewrite map_app. simpl. apply NoDup_app. split; [done |]. split.
  - intros x (c & -> & Hc)%list_elem_of_fmap Hx. apply list_elem_of_singleton in Hx.
    apply list_elem_of_In in Hc. eapply find_none in Hfind; [|exact Hc].
    simpl in Hfind. by apply bool_decide_eq_false in Hfind.
  - apply NoDup_singleton.
Qed.

(** X19.  Merging imported categories never creates a second category
    of the same name: if the names of the existing categories are
    pairwise different, so are the names after the merge, whatever is
    imported. *)
Theorem merged_category_names_stay_distinct (newCats existing : list Category.t) :
  NoDup (map Category.name existing) →
  NoDup (map Category.name (fold_left mergeCategory newCats existing)).
Proof.
  revert existing. induction newCats as [|nc newCats IH]; intros existing Hcs; [done |].
  simpl. by apply IH, mergeCategory_NoDup.
Qed.

(** X20.  Importing the same parsed file a second time adds no category
    but appends its links once more: categories are merged by name, and
    links are not compared with the ones already held. *)
Theorem handleImport_twice (file : string) (parsed : ImportResult) (w : World) :
  let w1 := (handleImport network JSON_stringify parseBookmarks (Some file) w).2 in
  let w2 := (handleImport network JSON_stringify parseBookmarks (Some file) w1).2 in
  authToken w ≠ "" → authToken w1 ≠ "" →
  parseBookmarks file = Returned parsed →
  categories w2 = categories w1 ∧
  links w2 = (links w ++ imported_links parsed) ++ imported_links parsed.
Proof.
  intros w1 w2 Htoken Htoken1 Hparse.
  assert (Hstep : ∀ w0, authToken w0 ≠ "" →
    let w' := (handleImport network JSON_stringify parseBookmarks (Some file) w0).2 in
    links w' = links w0 ++ imported_links parsed ∧
    categories w' =
      fold_left mergeCategory (imported_categories parsed) (categories w0)).
  { intros w0 H0. unfold handleImport. js_unfold. simpl.
    rewrite decide_False by done. rewrite Hparse.
    match goal with
    | |- context [updateData _ _ ?t ?ls ?cs w0] =>
        destruct (updateData_frame network JSON_stringify t ls cs w0) as (Hl & Hc & _);
        destruct (updateData network JSON_stringify t ls cs w0) as [[[]|e] w3]
    end; simpl in *; by rewrite Hl, Hc. }
  destruct (Hstep w Htoken) as [Hl1 Hc1]. destruct (Hstep w1 Htoken1) as [Hl2 Hc2].
  fold w1 in Hl1, Hc1. fold w2 in Hl2, Hc2.
  split; [|by rewrite Hl2, Hl1].
  rewrite Hc2. apply mergeCategory_fold_known. rewrite Hc1.
  by destruct (mergeCategory_fold_spec (imported_categories parsed) (categories w))
    as (added & _ & _ & _ & Hall).
Qed.

Lemma flipPinned_twice (l : LinkItem.t) : samePinnedness l (flipPinned (flipPinned l)).
Proof.
  unfold samePinnedness, flipPinned. simpl. repeat split.
  by destruct (truthy (LinkItem.pinned l)).
Qed.

Lemma samePinnedness_refl (l : LinkItem.t) : samePinnedness l l.
Proof. by repeat split. Qed.

(** X21.  Pinning is undone by pinning again: after [togglePin] is run
    twice on the same identifier, every link is pinned exactly when it
    was before and nothing else of it has changed, in the same order.
    The flag of a toggled link is then written out, [false] instead of
    absent for a link that never was pinned. *)
Theorem togglePin_twice (id : string) (w : World) :
  let w1 := (togglePin network JSON_stringify id w).2 in
  let w2 := (togglePin network JSON_stringify id w1).2 in
  authToken w ≠ "" → authToken w1 ≠ "" →
  Forall2 samePinnedness (links w) (links w2) ∧
  Forall (λ l, LinkItem.id l = id → is_Some (LinkItem.pinned l)) (links w2).
Proof.
  intros w1 w2 Htoken Htoken1.
  assert (Hstep : ∀ w0, authToken w0 ≠ "" →
    links (togglePin network JSON_stringify id w0).2 =
    map (fun l => if decide (LinkItem.id l = id) then flipPinned l else l) (links w0)).
  { intros w0 H0. unfold togglePin. js_unfold. simpl.
    rewrite decide_False by done.
    match goal with
    | |- context [updateData _ _ ?t ?ls ?cs w0] =>
        by destruct (updateData_frame network JSON_stringify t ls cs w0) as (Hl & _)
    end. }
  pose proof (Hstep w Htoken) as H1. pose proof (Hstep w1 Htoken1) as H2.
  fold w1 in H1. fold w2 in H2. rewrite H2, H1. clear.
  induction (links w) as [|l ls [IH1 IH2]]; [by split |].
  cbn [map].
  destruct (decide (LinkItem.id l = id)) as [Hid|Hid].
  - assert (Hid' : LinkItem.id (flipPinned l) = id) by done.
    rewrite decide_True by done.
    split; constructor; first [done | apply flipPinned_twice].
  - rewrite decide_False by done.
    split; constructor; first [done | apply samePinnedness_refl].
Qed.

End HandlerFacts.

(** ** [App]: locked categories and the lists shown *)

Section ViewFacts.

Variable toLowerCase : string → string.
Variable trim : string → string.

Lemma insertNewestFirst_perm (x : LinkItem.t) (sorted : list LinkItem.t) :
  insertNewestFirst x sorted ≡ₚ x :: sorted.
Proof.
  induction sorted as [|y rest IH]; [done |].
  simpl. case_decide; [|done]. rewrite IH. apply Permutation_swap.
Qed.

Lemma sortNewestFirst_perm (ls : list LinkItem.t) : sortNewestFirst ls ≡ₚ ls.
Proof.
  induction ls as [|x ls IH]; [done |].
  unfold sortNewestFirst in *. simpl. by rewrite insertNewestFirst_perm, IH.
Qed.

Lemma insertNewestFirst_sorted (x : LinkItem.t) (sorted : list LinkItem.t) :
  newestFirst sorted → newestFirst (insertNewestFirst x sorted).
Proof.
  induction sorted as [|y rest IH]; [done |].
  intros [Hy Hrest]. simpl. case_decide as Hlt.
  - simpl. split; [|by apply IH].
    rewrite insertNewestFirst_perm. constructor; [lia | done].
  - simpl. repeat split; try done. constructor; [lia |].
    eapply Forall_impl; [exact Hy |]. intros z Hz. simpl in Hz. lia.
Qed.

Lemma sortNewestFirst_sorted (ls : list LinkItem.t) : newestFirst (sortNewestFirst ls).
Proof.
  induction ls as [|x ls IH]; [done |].
  unfold sortNewestFirst in *. simpl. by apply insertNewestFirst_sorted.
Qed.

Lemma insertNewestFirst_stable (d : Z) (x : LinkItem.t) (sorted : list LinkItem.t) :
  filter (λ l, LinkItem.createdAt l = d) (insertNewestFirst x sorted) =
  filter (λ l, LinkItem.createdAt l = d) (x :: sorted).
Proof.
  induction sorted as [|y rest IH]; [done |].
  simpl. case_decide as Hlt; [|done].
  rewrite (filter_cons _ y), IH, !filter_cons.
  repeat case_decide; try done; lia.
Qed.

Lemma sortNewestFirst_stable (d : Z) (ls : list LinkItem.t) :
  filter (λ l, LinkItem.createdAt l = d) (sortNewestFirst ls) =
  filter (λ l, LinkItem.createdAt l = d) ls.
Proof.
  induction ls as [|x ls IH]; [done |].
  unfold sortNewestFirst in *. simpl.
  by rewrite insertNewestFirst_stable, !filter_cons, IH.
Qed.

(** Both lists hold only links of the state that pass the filter. *)
Lemma shown_links_pass_filter (links : list LinkItem.t)
    (categories : list Category.t) (unlocked : gset string)
    (selectedCategory searchQuery : string) (l : LinkItem.t) :
  l ∈ displayedLinks toLowerCase trim links categories unlocked
        selectedCategory searchQuery ∨
  l ∈ pinnedLinks links categories unlocked →
  isCategoryLocked categories unlocked (LinkItem.categoryId l) = false ∧ l ∈ links.
Proof.
  intros [Hl | Hl].
  - unfold displayedLinks in Hl. case_decide.
    + rewrite sortNewestFirst_perm in Hl. case_decide.
      * by apply list_elem_of_filter in Hl.
      * apply list_elem_of_filter in Hl as [_ Hl]. by apply list_elem_of_filter in Hl.
    + apply list_elem_of_filter in Hl as [_ Hl]. by apply list_elem_of_filter in Hl.
  - unfold pinnedLinks in Hl. apply list_elem_of_filter in Hl as [[_ Hl] Hin]. done.
Qed.

Lemma find_first {A : Type} (f : A → bool) (earlier later : list A) (x : A) :
  Forall (λ y, f y = false) earlier → f x = true →
  List.find f (earlier ++ x :: later) = Some x.
Proof.
  intros Hearlier Hx. induction Hearlier as [|y ys Hy _ IH]; simpl.
  - by rewrite Hx.
  - by rewrite Hy.
Qed.

(** X22.  A link that is shown, in the list of links or among the
    pinned links, is a link of the state, and the category it belongs
    to is open: if the first category of the list that has the link's
    category identifier (the only one, when identifiers are not shared)
    has a password that is not empty, its identifier is among the
    unlocked ones.  This holds whatever category is selected and
    whatever is searched for. *)
Theorem locked_links_never_shown (links : list LinkItem.t)
    (earlier later : list Category.t) (cat : Category.t) (unlocked : gset string)
    (selectedCategory searchQuery : string) (l : LinkItem.t) (password : string) :
  l ∈ displayedLinks toLowerCase trim links (earlier ++ cat :: later) unlocked
        selectedCategory searchQuery ∨
  l ∈ pinnedLinks links (earlier ++ cat :: later) unlocked →
  Forall (λ c, Category.id c ≠ LinkItem.categoryId l) earlier →
  Category.id cat = LinkItem.categoryId l →
  Category.password cat = Some password →
  password ≠ "" →
  Category.id cat ∈ unlocked ∧ l ∈ links.
Proof.
  intros Hshown Hearlier Hid Hpassword Hnonempty.
  apply shown_links_pass_filter in Hshown as [Hopen Hl].
  split; [|exact Hl].
  unfold isCategoryLocked in Hopen.
  rewrite (find_first _ earlier later cat) in Hopen.
  - unfold hasPassword in Hopen. rewrite Hpassword in Hopen.
    rewrite bool_decide_eq_false_2 in Hopen by done. simpl in Hopen.
    apply negb_false_iff, bool_decide_eq_true in Hopen. by rewrite Hid.
  - eapply Forall_impl; [exact Hearlier |]. intros c Hc.
    by apply bool_decide_eq_false.
  - by apply bool_decide_eq_true.
Qed.

(** X23.  When nothing is searched for, the list shown holds exactly
    the links of unlocked categories that belong to the selected
    category (all of them for ['all']), newest first, and links created
    at the same instant keep the order they have in the state. *)
Theorem displayedLinks_newest_first (links : list LinkItem.t)
    (categories : list Category.t) (unlocked : gset string)
    (selectedCategory searchQuery : string) :
  trim searchQuery = "" →
  let shown := displayedLinks toLowerCase trim links categories unlocked
                 selectedCategory searchQuery in
  let visible :=
    filter (λ l, isCategoryLocked categories unlocked (LinkItem.categoryId l) = false ∧
                 (selectedCategory = "all" ∨ LinkItem.categoryId l = selectedCategory))
           links in
  shown ≡ₚ visible ∧ newestFirst shown ∧
  ∀ d, filter (λ l, LinkItem.createdAt l = d) shown =
       filter (λ l, LinkItem.createdAt l = d) visible.
Proof.
  intros Hblank shown visible.
  assert (Hshown : shown = sortNewestFirst visible).
  { subst shown visible. unfold displayedLinks. rewrite decide_True by done.
    f_equal. case_decide as Hall.
    - apply list_filter_iff. intros l. tauto.
    - rewrite list_filter_filter. apply list_filter_iff. intros l. tauto. }
  rewrite Hshown. split; [apply sortNewestFirst_perm |].
  split; [apply sortNewestFirst_sorted |]. intros d. apply sortNewestFirst_stable.
Qed.

(** X24.  While something is searched for, the selected category plays
    no part and the result is not sorted: the list shown is the same
    for every selection, and it is the links of unlocked categories
    matching the query, in the order they have in the state. *)
Theorem search_ignores_selected_category (links : list LinkItem.t)
    (categories : list Category.t) (unlocked : gset string)
    (selectedCategory otherCategory searchQuery : string) :
  trim searchQuery ≠ "" →
  let shown := displayedLinks toLowerCase trim links categories unlocked
                 selectedCategory searchQuery in
  shown = displayedLinks toLowerCase trim links categories unlocked
            otherCategory searchQuery ∧
  shown = filter (λ l, isCategoryLocked categories unlocked (LinkItem.categoryId l)
                         = false ∧
                       matchesSearch toLowerCase (toLowerCase searchQuery) l = true)
                 links ∧
  sublist shown links.
Proof.
  intros Hquery shown. subst shown. unfold displayedLinks.
  rewrite !decide_False by done. split; [done |].
  rewrite list_filter_filter. split.
  - apply list_filter_iff. intros l. tauto.
  - apply sublist_filter.
Qed.



End ViewFacts.

(** ** [CategoryManagerModal] *)

Section ManagerFacts.

Variable trim : string → string.

Lemma arrayGet_Some (cs : list Category.t) (i : nat) :
  arrayGet (map Some cs) i = cs !! i.
Proof.
  unfold arrayGet. change (map Some cs) with (Some <$> cs).
  rewrite list_lookup_fmap. by destruct (cs !! i).
Qed.

Lemma arraySet_Some (cs : list Category.t) (i : nat) (x : Category.t) :
  (i < length cs)%nat → arraySet (map Some cs) i (Some x) = map Some (<[i := x]> cs).
Proof.
  intros Hi. unfold arraySet. rewrite length_map, decide_True by done.
  change (map Some cs) with (Some <$> cs).
  change (map Some (<[i:=x]> cs)) with (Some <$> <[i:=x]> cs).
  by rewrite list_fmap_insert.
Qed.

(** The array after exchanging the entries at [i] and [j], both inside
    the array. *)
Lemma swap_in_range (cs : list Category.t) (i j : nat) (x y : Category.t) :
  cs !! i = Some x → cs !! j = Some y →
  arraySet (arraySet (map Some cs) i (arrayGet (map Some cs) j)) j
    (arrayGet (map Some cs) i) =
  map Some (<[j := x]> (<[i := y]> cs)).
Proof.
  intros Hx Hy. rewrite !arrayGet_Some, Hx, Hy.
  assert (Hi : (i < length cs)%nat) by by eapply lookup_lt_Some.
  assert (Hj : (j < length cs)%nat) by by eapply lookup_lt_Some.
  rewrite arraySet_Some by done.
  by rewrite arraySet_Some by by rewrite length_insert.
Qed.

Lemma swap_lookup (cs : list Category.t) (i j : nat) (x y : Category.t) (k : nat) :
  cs !! i = Some x → cs !! j = Some y →
  <[j := x]> (<[i := y]> cs) !! k =
  cs !! (if decide (k = i) then j else if decide (k = j) then i else k).
Proof.
  intros Hx Hy.
  assert (Hi : (i < length cs)%nat) by by eapply lookup_lt_Some.
  assert (Hj : (j < length cs)%nat) by by eapply lookup_lt_Some.
  destruct (decide (k = j)) as [->|Hkj].
  - rewrite list_lookup_insert_eq by by rewrite length_insert.
    case_decide; by subst.
  - rewrite list_lookup_insert_ne by done.
    destruct (decide (k = i)) as [->|Hki].
    + by rewrite list_lookup_insert_eq.
    + by rewrite list_lookup_insert_ne.
Qed.

(** Where [handleMove] takes the entry at [index]: its neighbour, or
    [index] itself at the end of the list. *)
Lemma handleMove_in_range (categories : list Category.t) (index : nat)
    (direction : Direction) :
  (index < length categories)%nat →
  let other := match direction with
               | Up => (index - 1)%nat
               | Down => if decide (index + 1 < length categories)%nat
                         then (index + 1)%nat else index
               end in
  ∃ x y, categories !! index = Some x ∧ categories !! other = Some y ∧
         handleMove categories index direction =
         map Some (<[other := x]> (<[index := y]> categories)).
Proof.
  intros Hindex other.
  destruct (lookup_lt_is_Some_2 categories index Hindex) as [x Hx].
  assert (Hother : (other < length categories)%nat).
  { subst other. destruct direction; [lia | case_decide; lia]. }
  destruct (lookup_lt_is_Some_2 categories other Hother) as [y Hy].
  exists x, y. split; [done |]. split; [done |].
  assert (Hsame : other = index → map Some categories =
                    map Some (<[other := x]> (<[index := y]> categories))).
  { intros Heq. rewrite Heq in *. assert (y = x) as -> by congruence.
    rewrite list_insert_insert_eq. by rewrite list_insert_id. }
  unfold handleMove. rewrite length_map. subst other. destruct direction.
  - case_decide as Hpos.
    + cbn [fst snd]. by apply swap_in_range.
    + apply Hsame. lia.
  - destruct (decide (index + 1 < length categories)%nat) as [Hlt|Hge].
    + rewrite decide_True by lia. cbn [fst snd]. by apply swap_in_range.
    + rewrite decide_False by lia. by apply Hsame.
Qed.

(** X26.  For an index inside the list, [handleMove] passes on a list
    without holes that is the old one with the entry at [index] and its
    neighbour (above for up, below for down) exchanged, so nothing is
    lost or doubled; moving the first entry up or the last entry down
    passes on the list unchanged. *)
Theorem handleMove_exchanges_neighbours (categories : list Category.t) (index : nat)
    (direction : Direction) :
  (index < length categories)%nat →
  let other := match direction with
               | Up => (index - 1)%nat
               | Down => if decide (index + 1 < length categories)%nat
                         then (index + 1)%nat else index
               end in
  ∃ newCats,
    handleMove categories index direction = map Some newCats ∧
    newCats ≡ₚ categories ∧
    ∀ k, newCats !! k =
         categories !! (if decide (k = index) then other
                        else if decide (k = other) then index else k).
Proof.
  intros Hindex other.
  destruct (handleMove_in_range categories index direction Hindex)
    as (x & y & Hx & Hy & Hmove).
  fold other in Hy, Hmove.
  exists (<[other := x]> (<[index := y]> categories)).
  split; [done |]. split.
  - by apply Permutation_insert_swap.
  - intros k. by apply swap_lookup.
Qed.

(** X27.  Moving a category up and then moving it down again from where
    it landed gives back the list as it was. *)
Theorem handleMove_up_then_down (categories newCats : list Category.t) (index : nat) :
  (0 < index < length categories)%nat →
  handleMove categories index Up = map Some newCats →
  handleMove newCats (index - 1) Down = map Some categories.
Proof.
  intros [Hpos Hindex] Hup.
  destruct (handleMove_in_range categories index Up Hindex)
    as (x & y & Hx & Hy & Hmove).
  rewrite Hup in Hmove. cbn zeta in *.
  assert (HnewCats : newCats = <[(index - 1)%nat := x]> (<[index := y]> categories)).
  { assert (Hinj : Inj (=) (=) (@Some Category.t)) by (intros a b; congruence).
    change (Some <$> newCats =
            Some <$> <[(index - 1)%nat := x]> (<[index := y]> categories)) in Hmove.
    by apply (inj (fmap Some)) in Hmove. }
  assert (Hlen : length newCats = length categories).
  { rewrite HnewCats. by rewrite !length_insert. }
  destruct (handleMove_in_range newCats (index - 1) Down ltac:(lia))
    as (x' & y' & Hx' & Hy' & Hmove').
  rewrite decide_True in Hy', Hmove' by lia.
  replace (index - 1 + 1)%nat with index in Hy', Hmove' by lia.
  rewrite Hmove'. f_equal. apply list_eq. intros k.
  rewrite (swap_lookup newCats (index - 1) index x' y' k) by done.
  rewrite HnewCats.
  rewrite (swap_lookup categories index (index - 1) x y) by done.
  repeat case_decide; first [done | f_equal; lia | lia].
Qed.

(** X28.  What [saveEdit] and [handleAdd] pass on keeps every existing
    category in place with its identifier and icon: [saveEdit] changes
    only the categories with the identifier being edited, [handleAdd]
    only appends one category.  Neither passes anything on when the
    trimmed name is empty, so the name they write is never empty. *)
Theorem manager_keeps_existing_categories (dateNow : Z)
    (categories : list Category.t) (m : ManagerState) :
  (∀ newCats, (saveEdit trim categories m).2 = Some newCats →
     ∃ id, editingId m = Some id ∧ trim (editName m) ≠ "" ∧
       Forall2 (λ c c',
         Category.id c' = Category.id c ∧ Category.icon c' = Category.icon c ∧
         if decide (Category.id c = id) then Category.name c' = trim (editName m)
         else c' = c) categories newCats) ∧
  (∀ newCats, (handleAdd trim dateNow categories m).2 = Some newCats →
     ∃ newCat, newCats = categories ++ [newCat] ∧
       Category.name newCat = trim (newCatName m) ∧ Category.name newCat ≠ "") ∧
  (trim (editName m) = "" → (saveEdit trim categories m).2 = None) ∧
  (trim (newCatName m) = "" → (handleAdd trim dateNow categories m).2 = None).
Proof.
  split; [|split; [|split]].
  - intros newCats. unfold saveEdit.
    destruct (editingId m) as [id|]; [|done].
    repeat case_decide; try done. simpl. intros [= <-].
    exists id. split; [done |]. split; [done |].
    induction categories as [|c cs IH]; [constructor |].
    cbn [map]. constructor; [|done]. by case_decide.
  - intros newCats. unfold handleAdd. case_decide; [done |]. simpl. intros [= <-].
    by eexists.
  - intros Hblank. unfold saveEdit. destruct (editingId m); [|done].
    repeat case_decide; done.
  - intros Hblank. unfold handleAdd. by rewrite decide_True.
Qed.

End ManagerFacts.

(** ** The further properties at sample inputs *)

Lemma escapeHtml_injective_sample :
  escapeHtml ("a<" +:+ "b") = escapeHtml "a<b" ∧ "a<" +:+ "b" = "a<b".
Proof.
  assert (H : escapeHtml ("a<" +:+ "b") = escapeHtml "a<b") by reflexivity.
  exact (conj H (escapeHtml_injective ("a<" +:+ "b") "a<b" H)).
Defined.

Lemma every_link_written_once_sample :
  NoDup (map Category.id sampleCategories) ∧
  flat_map (fun cat => default [] (linksByCat sampleLinks !! Category.id cat))
    sampleCategories ++ uncategorized sampleLinks sampleCategories ≡ₚ sampleLinks.
Proof.
  assert (H : NoDup (map Category.id sampleCategories)).
  { apply (bool_decide_unpack _). vm_compute. exact I. }
  exact (conj H (every_link_written_once sampleLinks sampleCategories H)).
Defined.

Lemma export_ignores_other_fields_sample :
  Forall2 sameAnchor [sampleGitHub] [sampleGitHubTwin] ∧
  Forall2 sameFolder sampleCategories sampleCategoriesTwin ∧
  generateBookmarkHtml 5000 [sampleGitHub] sampleCategories =
  generateBookmarkHtml 5000 [sampleGitHubTwin] sampleCategoriesTwin.
Proof.
  assert (Hl : Forall2 sameAnchor [sampleGitHub] [sampleGitHubTwin])
    by (repeat constructor).
  assert (Hc : Forall2 sameFolder sampleCategories sampleCategoriesTwin)
    by (repeat constructor).
  exact (conj Hl (conj Hc (export_ignores_other_fields 5000 _ _ _ _ Hl Hc))).
Defined.

Lemma unencodable_credentials_sample :
  failingBtoa (cfg_username sampleConfig +:+ ":" +:+ cfg_password sampleConfig) = None ∧
  (checkWebDavConnection acceptingNetwork failingBtoa sampleConfig emptyWorld).1 =
    Returned false ∧
  sent (downloadBackup acceptingNetwork failingBtoa sampleConfig emptyWorld).2 = [].
Proof.
  destruct (unencodable_credentials_send_nothing acceptingNetwork failingBtoa
              sampleStringify sampleConfig sampleLinks sampleCategories emptyWorld
              eq_refl) as [[Hcheck _] [_ [_ [Hsent _]]]].
  exact (conj eq_refl (conj Hcheck Hsent)).
Defined.

Lemma local_cache_mirrors_state_sample :
  cacheMirrorsState sampleStringify cachedWorld ∧
  cacheMirrorsState sampleStringify
    (fold_left (perform acceptingNetwork sampleStringify sampleParser)
       sampleActions cachedWorld).
Proof.
  assert (H : cacheMirrorsState sampleStringify cachedWorld) by reflexivity.
  exact (conj H (local_cache_mirrors_state acceptingNetwork sampleStringify
                   sampleParser sampleActions cachedWorld H)).
Defined.

Lemma token_stays_persisted_sample :
  tokenPersisted cachedWorld ∧
  tokenPersisted
    (fold_left (perform (answeringNetwork (mkResponse 401 BodyNotJson))
                  sampleStringify sampleParser)
       sampleActions cachedWorld).
Proof.
  assert (H : tokenPersisted cachedWorld) by reflexivity.
  exact (conj H (token_stays_persisted (answeringNetwork (mkResponse 401 BodyNotJson))
                   sampleStringify sampleParser sampleActions cachedWorld H)).
Defined.

Lemma signed_out_actions_sample :
  authToken signedOutWorld = "" ∧
  (let w' := perform acceptingNetwork sampleStringify sampleParser signedOutWorld
               (DeleteCategory "dev") in
   links w' = links signedOutWorld ∧ categories w' = categories signedOutWorld ∧
   localStorage w' = localStorage signedOutWorld ∧ sent w' = sent signedOutWorld).
Proof.
  assert (Hnot : ∀ password, DeleteCategory "dev" ≠ Login password) by done.
  exact (conj eq_refl
           (guarded_handlers_change_nothing_signed_out acceptingNetwork sampleStringify
              sampleParser (DeleteCategory "dev") signedOutWorld eq_refl Hnot)).
Defined.

Lemma handleDeleteCategory_sample_categories :
  authToken cachedWorld ≠ "" ∧
  categories (handleDeleteCategory acceptingNetwork sampleStringify "read"
                cachedWorld).2 ≠ [] ∧
  Forall (λ l, LinkItem.categoryId l ≠ "read")
    (links (handleDeleteCategory acceptingNetwork sampleStringify "read"
              cachedWorld).2).
Proof.
  assert (Htoken : authToken cachedWorld ≠ "") by done.
  assert (Hread : "read" ≠ "common") by done.
  destruct (handleDeleteCategory_leaves_no_reference acceptingNetwork sampleStringify
              "read" cachedWorld Htoken) as [Hnonempty Hgone].
  exact (conj Htoken (conj Hnonempty (proj2 (Hgone Hread)))).
Defined.

Lemma handleImport_failure_sample :
  failingParser "notes.txt" = Thrown (Error "not a bookmark file") ∧
  links (handleImport acceptingNetwork sampleStringify failingParser
           (Some "notes.txt") cachedWorld).2 = links cachedWorld ∧
  sent (handleImport acceptingNetwork sampleStringify failingParser
          (Some "notes.txt") cachedWorld).2 = sent cachedWorld.
Proof.
  assert (Htoken : authToken cachedWorld ≠ "") by done.
  destruct (handleImport_failures_change_nothing acceptingNetwork sampleStringify
              failingParser (Some "notes.txt") cachedWorld) as (_ & _ & Hthrown).
  destruct (Hthrown "notes.txt" _ eq_refl Htoken eq_refl) as (Hl & _ & _ & Hs & _).
  exact (conj eq_refl (conj Hl Hs)).
Defined.

Lemma merged_category_names_sample :
  NoDup (map Category.name sampleCategories) ∧
  NoDup (map Category.name
           (fold_left mergeCategory (imported_categories sampleImport)
              sampleCategories)).
Proof.
  assert (H : NoDup (map Category.name sampleCategories)).
  { apply (bool_decide_unpack _). vm_compute. exact I. }
  exact (conj H (merged_category_names_stay_distinct
                   (imported_categories sampleImport) sampleCategories H)).
Defined.

Lemma handleImport_twice_sample :
  let w1 := (handleImport acceptingNetwork sampleStringify sampleParser
               (Some "bookmarks.html") cachedWorld).2 in
  let w2 := (handleImport acceptingNetwork sampleStringify sampleParser
               (Some "bookmarks.html") w1).2 in
  authToken cachedWorld ≠ "" ∧ authToken w1 ≠ "" ∧
  categories w2 = categories w1 ∧
  links w2 = (links cachedWorld ++ imported_links sampleImport) ++
             imported_links sampleImport.
Proof.
  intros w1 w2.
  assert (H0 : authToken cachedWorld ≠ "") by done.
  assert (H1 : authToken w1 ≠ "") by done.
  exact (conj H0 (conj H1
           (handleImport_twice acceptingNetwork sampleStringify sampleParser
              "bookmarks.html" sampleImport cachedWorld H0 H1 eq_refl))).
Defined.

Lemma togglePin_twice_sample :
  let w1 := (togglePin acceptingNetwork sampleStringify "3" cachedWorld).2 in
  let w2 := (togglePin acceptingNetwork sampleStringify "3" w1).2 in
  authToken cachedWorld ≠ "" ∧ authToken w1 ≠ "" ∧
  Forall2 samePinnedness (links cachedWorld) (links w2) ∧
  Forall (λ l, LinkItem.id l = "3" → is_Some (LinkItem.pinned l)) (links w2).
Proof.
  intros w1 w2.
  assert (H0 : authToken cachedWorld ≠ "") by done.
  assert (H1 : authToken w1 ≠ "") by done.
  exact (conj H0 (conj H1
           (togglePin_twice acceptingNetwork sampleStringify "3" cachedWorld H0 H1))).
Defined.

Lemma locked_links_sample :
  (sampleGitHub ∈ displayedLinks sampleIdentity sampleIdentity sampleLinks
                    ([] ++ lockedCategory :: []) {["dev"]} "all" "") ∧
  Category.password lockedCategory = Some "secret" ∧
  "dev" ∈ ({["dev"]} : gset string) ∧ sampleGitHub ∈ sampleLinks.
Proof.
  assert (Hshown :
    sampleGitHub ∈ displayedLinks sampleIdentity sampleIdentity sampleLinks
                     ([] ++ lockedCategory :: []) {["dev"]} "all" "").
  { apply (bool_decide_unpack _). vm_compute. exact I. }
  assert (Hsecret : "secret" ≠ "") by done.
  split; [exact Hshown |]. split; [reflexivity |].
  exact (locked_links_never_shown sampleIdentity sampleIdentity sampleLinks []
           [] lockedCategory {["dev"]} "all" "" sampleGitHub "secret"
           (or_introl Hshown) (Forall_nil_2 _) eq_refl eq_refl Hsecret).
Defined.

Lemma displayedLinks_newest_first_sample :
  sampleIdentity "" = "" ∧
  newestFirst (displayedLinks sampleIdentity sampleIdentity sampleLinks
                 sampleCategories ∅ "all" "").
Proof.
  exact (conj eq_refl
           (proj1 (proj2 (displayedLinks_newest_first sampleIdentity sampleIdentity
                            sampleLinks sampleCategories ∅ "all" "" eq_refl)))).
Defined.

Lemma search_ignores_selected_category_sample :
  sampleIdentity "git" ≠ "" ∧
  displayedLinks sampleIdentity sampleIdentity sampleLinks sampleCategories ∅
    "read" "git" =
  displayedLinks sampleIdentity sampleIdentity sampleLinks sampleCategories ∅
    "all" "git".
Proof.
  assert (H : sampleIdentity "git" ≠ "") by done.
  exact (conj H
           (proj1 (search_ignores_selected_category sampleIdentity sampleIdentity
                     sampleLinks sampleCategories ∅ "read" "all" "git" H))).
Defined.


Lemma handleMove_sample :
  (1 < length sampleCategories)%nat ∧
  ∃ newCats, handleMove sampleCategories 1 Up = map Some newCats ∧
             newCats ≡ₚ sampleCategories.
Proof.
  assert (H : (1 < length sampleCategories)%nat) by (simpl; lia).
  destruct (handleMove_exchanges_neighbours sampleCategories 1 Up H)
    as (newCats & Hmove & Hperm & _).
  exact (conj H (ex_intro _ newCats (conj Hmove Hperm))).
Defined.

Lemma handleMove_up_then_down_sample :
  (0 < 1 < length sampleCategories)%nat ∧
  handleMove sampleCategories 1 Up = map Some (reverse sampleCategories) ∧
  handleMove (reverse sampleCategories) 0 Down = map Some sampleCategories.
Proof.
  assert (H : (0 < 1 < length sampleCategories)%nat) by (simpl; lia).
  assert (Hup : handleMove sampleCategories 1 Up = map Some (reverse sampleCategories))
    by reflexivity.
  exact (conj H (conj Hup
           (handleMove_up_then_down sampleCategories (reverse sampleCategories) 1
              H Hup))).
Defined.

Lemma manager_sample :
  (saveEdit sampleIdentity sampleCategories sampleManager).2 =
    Some [ Category.mk "dev" "Tools" "Code" None;
           Category.mk "read" "<Reading>" "BookOpen" None ] ∧
  ∃ id, editingId sampleManager = Some id ∧ sampleIdentity (editName sampleManager) ≠ "".
Proof.
  destruct (manager_keeps_existing_categories sampleIdentity 0 sampleCategories
              sampleManager) as [Hsave _].
  destruct (Hsave _ eq_refl) as (id & Hid & Hname & _).
  exact (conj eq_refl (ex_intro _ id (conj Hid Hname))).
Defined.
